(** * jedi.evaluate.param: binding call arguments to formal parameters

    A shallow embedding of [src/jedi/evaluate/param.py].  The binder
    [get_executed_params] walks the formal parameters of a function
    definition, pulls arguments from a push-back iterator over the unpacked
    call arguments, and records analysis issues on the way.  The local
    variables of the Python function become the fields of [State]; the
    issues handed to [analysis.add] are collected in emission order. *)

From Stdlib Require Import List String Bool Arith Lia DecimalString.
Import ListNotations.

Set Implicit Arguments.
Local Open Scope string_scope.
Local Open Scope list_scope.

(** Python's [len] on lists. *)
Abbreviation len := List.length.

(** ** Python dictionaries

    Keys are strings.  Insertion order is kept, as [dict.items()] shows it:
    assigning to a key that is present replaces the value in place, a new
    key goes to the end. *)

Section Dict.
Variable V : Type.

Definition dict := list (string * V).

Fixpoint dict_get (k : string) (d : dict) : option V :=
  match d with
  | [] => None
  | (k', v) :: d' => if String.eqb k k' then Some v else dict_get k d'
  end.

Fixpoint dict_set (k : string) (v : V) (d : dict) : dict :=
  match d with
  | [] => [(k, v)]
  | (k', v') :: d' =>
      if String.eqb k k' then (k', v) :: d' else (k', v') :: dict_set k v d'
  end.

Definition dict_mem (k : string) (d : dict) : bool :=
  match dict_get k d with Some _ => true | None => false end.

Definition dict_keys (d : dict) : list string := map fst d.

(** Truth value of a dictionary: non-empty. *)
Definition dict_bool (d : dict) : bool :=
  match d with [] => false | _ :: _ => true end.
End Dict.

(** [str(n)] for a non-negative integer. *)
Definition str_of_nat (n : nat) : string :=
  NilEmpty.string_of_uint (Nat.to_uint n).

(** ** Data model *)

Section Binder.
(** Syntax tree nodes come from the parser; the binder only follows
    [node.parent] and reads [node.type].  Tree contexts (the scopes
    expressions are evaluated in) and the evaluator are handed through
    untouched. *)
Variables Node TreeContext Evaluator : Type.
Variable parent : Node -> Node.
Variable type : Node -> string.

(** Lazy contexts ([jedi.evaluate.lazy_context]) and the contexts a
    [LazyKnownContext] wraps: the fake tuple and dict built for [*args]
    and [**kwargs] ([jedi.evaluate.context.iterable]), or any other
    context. *)
Inductive LazyContext : Type :=
| LazyKnownContext (data : Context)
| LazyTreeContext (context : TreeContext) (data : Node)
| LazyUnknownContext
with Context : Type :=
| FakeSequence (evaluator : Evaluator) (array_type : string)
               (lazy_context_list : list LazyContext)
| FakeDict (evaluator : Evaluator) (dct : dict LazyContext)
| OtherContext (c : TreeContext).

(** [isinstance(lazy_context, LazyUnknownContext)] *)
Definition is_unknown (l : LazyContext) : bool :=
  match l with LazyUnknownContext => true | _ => false end.

(** A [param] node of the tree: [param.name.value], [param.star_count]
    (0, 1 for [*args], 2 for [**kwargs]) and [param.default]. *)
Record Param : Type := mkParam {
  name : string;
  star_count : nat;
  default : option Node
}.

(** A [funcdef] node: [str(funcdef.name)] and [funcdef.get_params()]. *)
Record Funcdef : Type := mkFuncdef {
  funcdef_name : string;
  get_params : list Param
}.

(** The execution context of the call:
    [tree_node], [evaluator], [parent_context] and
    [function_context.get_default_param_context()]. *)
Record ExecutionContext : Type := mkExecutionContext {
  tree_node : Funcdef;
  evaluator : Evaluator;
  parent_context : TreeContext;
  get_default_param_context : TreeContext
}.

(** One unpacked argument: [(key, lazy_context)], [key] is [None] for a
    positional argument. *)
Definition Argument : Type := (option string * LazyContext)%type.

(** The arguments object [var_args]. *)
Record Arguments : Type := mkArguments {
  unpack : Funcdef -> list Argument;
  get_calling_nodes : list Node
}.

Record ExecutedParam : Type := mkExecutedParam {
  _execution_context : ExecutionContext;
  _param_node : Param;
  _lazy_context : LazyContext
}.

Definition string_name (p : ExecutedParam) : string :=
  name (_param_node p).

(** Modelled from the spec: the diagnostics sink [analysis.add]
    ([jedi.evaluate.analysis]) records its arguments; an [Issue] is one
    such record. *)
Record Issue : Type := mkIssue {
  issue_context : TreeContext;
  error_name : string;
  issue_node : Node;
  message : string
}.

(** Modelled from the spec: [analysis.add(context, error_name, node,
    message)] never raises and yields one issue for the sink. *)
Definition analysis_add (ctx : TreeContext) (err : string) (node : Node)
           (m : string) : Issue :=
  mkIssue ctx err node m.

(** [_add_argument_issue]: the issues it hands to the sink (none or one). *)
Definition _add_argument_issue (parent_context : TreeContext)
           (error_name : string) (lazy_context : LazyContext)
           (message : string) : list Issue :=
  match lazy_context with
  | LazyTreeContext _ data =>
      let node := data in
      let node :=
        if String.eqb (type (parent node)) "argument" then parent node
        else node in
      [analysis_add parent_context error_name node message]
  | _ => []
  end.

(** [p.default or p.star_count], as a truth value. *)
Definition has_default_or_star (p : Param) : bool :=
  match default p with
  | Some _ => true
  | None => negb (Nat.eqb (star_count p) 0)
  end.

Definition _error_argument_count (funcdef : Funcdef) (actual_count : nat)
  : string :=
  let params := get_params funcdef in
  let default_arguments := len (filter has_default_or_star params) in
  let before :=
    if Nat.eqb default_arguments 0 then "exactly "
    else String.concat ""
           ["from "; str_of_nat (len params - default_arguments); " to "]
  in
  String.concat ""
    ["TypeError: "; funcdef_name funcdef; "() takes "; before;
     str_of_nat (len params); " arguments (";
     str_of_nat actual_count; " given)."].

(** ** The local variables of [get_executed_params] *)

(** Modelled from the spec: [PushBackIterator]
    ([jedi.evaluate.utils]) is a cursor with push-back over the unpacked
    arguments.  It is kept as the list of items still to come;
    [push_back] puts an item in front, [next] takes the front item. *)
Definition PushBackIterator : Type := list Argument.

Definition push_back (item : Argument) (it : PushBackIterator)
  : PushBackIterator := item :: it.

Record State : Type := mkState {
  result_params : list ExecutedParam;
  keys_used : dict ExecutedParam;
  non_matching_keys : dict LazyContext;
  keys_only : bool;
  had_multiple_value_error : bool;
  var_arg_iterator : PushBackIterator;
  issues : list Issue
}.

Section Call.
Variable execution_context : ExecutionContext.
Variable var_args : Arguments.

Local Abbreviation funcdef := (tree_node execution_context).
Local Abbreviation default_param_context :=
  (get_default_param_context execution_context).

(** [param_dict]: the parameters by name; a repeated name keeps the
    last parameter of that name. *)
Definition param_dict : dict Param :=
  fold_left (fun d param => dict_set (name param) param d)
            (get_params funcdef) [].

Definition unpacked_va : list Argument := unpack var_args funcdef.

Definition multiple_values_message (key : string) : string :=
  String.concat ""
    ["TypeError: "; funcdef_name funcdef;
     "() got multiple values for keyword argument '"; key; "'."].

Definition unexpected_keyword_message (key : string) : string :=
  String.concat ""
    ["TypeError: "; funcdef_name funcdef;
     "() got an unexpected keyword argument '"; key; "'."].

(** The too-few-arguments issues of one [for node in
    var_args.get_calling_nodes()] loop. *)
Definition too_few_issues : list Issue :=
  map (fun node =>
         analysis_add default_param_context "type-error-too-few-arguments"
                      node
                      (_error_argument_count funcdef (len unpacked_va)))
      (get_calling_nodes var_args).

(** One turn of [while key is not None] (lines 86-100), for the item
    [(key, argument)] in hand. *)
Definition keyword_step (key : string) (argument : LazyContext)
           (s : State) : State :=
  match dict_get key param_dict with
  | None =>
      mkState (result_params s) (keys_used s)
              (dict_set key argument (non_matching_keys s))
              true (had_multiple_value_error s)
              (var_arg_iterator s) (issues s)
  | Some key_param =>
      if dict_mem key (keys_used s) then
        mkState (result_params s) (keys_used s) (non_matching_keys s)
                true true (var_arg_iterator s)
                (issues s ++
                 map (fun node =>
                        analysis_add default_param_context
                                     "type-error-multiple-values" node
                                     (multiple_values_message key))
                     (get_calling_nodes var_args))
      else
        mkState (result_params s)
                (dict_set key
                   (mkExecutedParam execution_context key_param argument)
                   (keys_used s))
                (non_matching_keys s)
                true (had_multiple_value_error s)
                (var_arg_iterator s) (issues s)
  end.

(** Lines 84-101: take the next item, and as long as the item in hand
    has a key, handle it and take the next one.  The result is the
    state with the iterator advanced, and the positional [argument]
    left in hand ([None] when the iterator ran out). *)
Fixpoint keyword_loop (it : PushBackIterator) (s : State)
  : State * option LazyContext :=
  match it with
  | [] =>
      (mkState (result_params s) (keys_used s) (non_matching_keys s)
               (keys_only s) (had_multiple_value_error s) [] (issues s),
       None)
  | (None, argument) :: it' =>
      (mkState (result_params s) (keys_used s) (non_matching_keys s)
               (keys_only s) (had_multiple_value_error s) it' (issues s),
       Some argument)
  | (Some key, argument) :: it' =>
      keyword_loop it' (keyword_step key argument s)
  end.

(** [if key:] on an item's key. *)
Definition key_bool (key : option string) : bool :=
  match key with
  | None => false
  | Some k => negb (String.eqb k "")
  end.

(** Lines 114-119: collect the items for [*args] until an item with a
    key shows up, which is pushed back. *)
Fixpoint star_args_loop (it : PushBackIterator)
  : list LazyContext * PushBackIterator :=
  match it with
  | [] => ([], [])
  | (key, argument) :: it' =>
      if key_bool key then ([], push_back (key, argument) it')
      else let (l, r) := star_args_loop it' in (argument :: l, r)
  end.

(** Lines 109-141: the lazy context for a parameter that no keyword
    bound, with the iterator, the unmatched keys and the issues
    afterwards. *)
Definition bind_argument (param : Param) (argument : option LazyContext)
           (s : State)
  : LazyContext * PushBackIterator * dict LazyContext * list Issue :=
  if Nat.eqb (star_count param) 1 then
    let (lazy_context_list, it) :=
      match argument with
      | Some a =>
          let (l, r) := star_args_loop (var_arg_iterator s) in (a :: l, r)
      | None => ([], var_arg_iterator s)
      end in
    (LazyKnownContext
       (FakeSequence (evaluator execution_context) "tuple"
                     lazy_context_list),
     it, non_matching_keys s, issues s)
  else if Nat.eqb (star_count param) 2 then
    (LazyKnownContext
       (FakeDict (evaluator execution_context) (non_matching_keys s)),
     var_arg_iterator s, [], issues s)
  else
    match argument with
    | None =>
        match default param with
        | None =>
            (LazyUnknownContext, var_arg_iterator s, non_matching_keys s,
             if keys_only s then issues s
             else issues s ++ too_few_issues)
        | Some d =>
            (LazyTreeContext default_param_context d,
             var_arg_iterator s, non_matching_keys s, issues s)
        end
    | Some a =>
        (a, var_arg_iterator s, non_matching_keys s, issues s)
    end.

(** The body of [for param in funcdef.get_params()] (lines 79-145). *)
Definition bind_param (s : State) (param : Param) : State :=
  let (s1, argument) := keyword_loop (var_arg_iterator s) s in
  match dict_get (name param) (keys_used s1) with
  | Some executed =>
      mkState (result_params s1 ++ [executed]) (keys_used s1)
              (non_matching_keys s1) (keys_only s1)
              (had_multiple_value_error s1) (var_arg_iterator s1)
              (issues s1)
  | None =>
      let '(result_arg, it, nmk, iss) := bind_argument param argument s1 in
      let executed := mkExecutedParam execution_context param result_arg in
      mkState (result_params s1 ++ [executed])
              (if is_unknown result_arg then keys_used s1
               else dict_set (name param) executed (keys_used s1))
              nmk (keys_only s1) (had_multiple_value_error s1) it iss
  end.

Definition initial_state : State :=
  mkState [] [] [] false false unpacked_va [].

(** The state when the [for] loop is left (line 146). *)
Definition bind_loop : State :=
  fold_left bind_param (get_params funcdef) initial_state.

(** Lines 147-160.  The names [set(param_dict) - set(keys_used)] are
    visited in the order of [param_dict]; every visit emits the same
    issues, so the order of the set does not show. *)
Definition missing_keys (s : State) : list string :=
  filter (fun k => negb (dict_mem k (keys_used s))) (dict_keys param_dict).

Definition consolidated_too_few (s : State) : list Issue :=
  if keys_only s then
    flat_map
      (fun k =>
         match dict_get k param_dict with
         | Some param =>
             if negb (dict_bool (non_matching_keys s)
                      || had_multiple_value_error s
                      || has_default_or_star param)
             then too_few_issues else []
         | None => []
         end)
      (missing_keys s)
  else [].

(** Lines 162-170: one call of [_add_argument_issue] per unmatched key. *)
Definition unexpected_keyword_issues (s : State) : list Issue :=
  flat_map
    (fun item : string * LazyContext =>
       let (key, lazy_context) := item in
       _add_argument_issue default_param_context
                           "type-error-keyword-argument" lazy_context
                           (unexpected_keyword_message key))
    (non_matching_keys s).

(** Truth value of a list: non-empty. *)
Definition list_bool (A : Type) (l : list A) : bool :=
  match l with [] => false | _ :: _ => true end.

(** Lines 172-185: [remaining_arguments = list(var_arg_iterator)]. *)
Definition too_many_issues (s : State) : list Issue :=
  let remaining_arguments := var_arg_iterator s in
  match remaining_arguments with
  | [] => []
  | (first_key, lazy_context) :: _ =>
      if list_bool (get_calling_nodes var_args) then
        _add_argument_issue default_param_context
                            "type-error-too-many-arguments" lazy_context
                            (_error_argument_count funcdef (len unpacked_va))
      else []
  end.

(** [get_executed_params(execution_context, var_args)]: the list it
    returns, and the issues it hands to [analysis.add], in order. *)
Definition get_executed_params : list ExecutedParam * list Issue :=
  let s := bind_loop in
  (result_params s,
   issues s ++ consolidated_too_few s ++ unexpected_keyword_issues s
            ++ too_many_issues s).
End Call.

(** ** Parameters without a call *)

Definition _create_default_param (execution_context : ExecutionContext)
           (param : Param) : ExecutedParam :=
  let result_arg :=
    if Nat.eqb (star_count param) 1 then
      LazyKnownContext
        (FakeSequence (evaluator execution_context) "tuple" [])
    else if Nat.eqb (star_count param) 2 then
      LazyKnownContext (FakeDict (evaluator execution_context) [])
    else
      match default param with
      | None => LazyUnknownContext
      | Some d => LazyTreeContext (parent_context execution_context) d
      end in
  mkExecutedParam execution_context param result_arg.

(** [create_default_params(execution_context, funcdef)]: the list it
    returns, and the issues it hands to [analysis.add]: it never calls
    it. *)
Definition create_default_params (execution_context : ExecutionContext)
           (funcdef : Funcdef) : list ExecutedParam * list Issue :=
  (map (_create_default_param execution_context) (get_params funcdef), []).

(** ** [ExecutedParam.infer] and [ExecutedParam.matches_signature] *)

Section Infer.
(** The inference engine is outside this module.  [ContextObject] is what
    a context set holds; [lazy_infer] is [lazy_context.infer()],
    [py__class__] maps a context to its class, [pep0484_infer_param] and
    [docstrings_infer_param] are the hint sources, [execute_annotation]
    turns annotation classes into instances, and [is_sub_class_of] is the
    subclass test.  A context set is kept as the list of its members. *)
Variable ContextObject : Type.
Variable lazy_infer : LazyContext -> list ContextObject.
Variable py__class__ : ContextObject -> ContextObject.
Variable pep0484_infer_param :
  ExecutionContext -> Param -> list ContextObject.
Variable docstrings_infer_param :
  ExecutionContext -> Param -> list ContextObject.
Variable execute_annotation : list ContextObject -> list ContextObject.
Variable is_sub_class_of : ContextObject -> ContextObject -> bool.

Definition infer_annotations (self : ExecutedParam) : list ContextObject :=
  pep0484_infer_param (_execution_context self) (_param_node self).

Definition infer (self : ExecutedParam) (use_hints : bool)
  : list ContextObject :=
  if use_hints then
    let doc_params :=
      docstrings_infer_param (_execution_context self) (_param_node self) in
    let ann := execute_annotation (infer_annotations self) in
    if list_bool ann || list_bool doc_params then ann ++ doc_params
    else lazy_infer (_lazy_context self)
  else lazy_infer (_lazy_context self).

Definition matches_signature (self : ExecutedParam) : bool :=
  let argument_contexts := map py__class__ (infer self false) in
  if negb (Nat.eqb (star_count (_param_node self)) 0) then true
  else
    let annotations := infer_annotations self in
    if negb (list_bool annotations) then true
    else
      existsb (fun c1 => existsb (fun c2 => is_sub_class_of c1 c2) annotations)
              argument_contexts.
End Infer.
End Binder.

Arguments name {Node} p.
Arguments star_count {Node} p.
Arguments default {Node} p.
Arguments string_name {Node TreeContext Evaluator} p.
Arguments _param_node {Node TreeContext Evaluator} e.
Arguments _lazy_context {Node TreeContext Evaluator} e.
Arguments error_name {Node TreeContext} i.
Arguments issue_node {Node TreeContext} i.
Arguments LazyKnownContext {Node TreeContext Evaluator} data.
Arguments LazyTreeContext {Node TreeContext Evaluator} context data.
Arguments LazyUnknownContext {Node TreeContext Evaluator}.
Arguments FakeSequence {Node TreeContext Evaluator}
  evaluator array_type lazy_context_list.
Arguments FakeDict {Node TreeContext Evaluator} evaluator dct.
Arguments OtherContext {Node TreeContext Evaluator} c.

(** ** Notions the facts below are stated with *)

Section Properties.
Variables Node TreeContext Evaluator : Type.
Variable parent : Node -> Node.
Variable type : Node -> string.
Variable execution_context : ExecutionContext Node TreeContext Evaluator.
Variable var_args : Arguments Node TreeContext Evaluator.

Local Abbreviation params := (get_params (tree_node execution_context)).
Local Abbreviation calling_nodes := (get_calling_nodes var_args).
Local Abbreviation unpacked := (unpacked_va execution_context var_args).
Local Abbreviation pdict := (param_dict execution_context).
Local Abbreviation step := (bind_param execution_context var_args).
Local Abbreviation drain := (keyword_loop execution_context var_args).
Local Abbreviation state := (State Node TreeContext Evaluator).

(** Every entry of [keys_used] is an executed parameter of that name,
    made for a parameter of the function. *)
Definition keys_ok (s : state) : Prop :=
  forall k e, In (k, e) (keys_used s) ->
              name (_param_node e) = k /\ In (_param_node e) params.

Definition unused (k : string) (s : state) : Prop :=
  ~ In k (dict_keys (keys_used s)).

(** The state in which the turn for the parameter after [ps1] starts, and
    what the keyword loop of that turn leaves. *)
Definition state_before (ps1 : list (Param Node)) : state :=
  fold_left step ps1 (initial_state execution_context var_args).

Definition state_drained (ps1 : list (Param Node)) : state :=
  fst (drain (var_arg_iterator (state_before ps1)) (state_before ps1)).

Definition argument_in_hand (ps1 : list (Param Node))
  : option (LazyContext Node TreeContext Evaluator) :=
  snd (drain (var_arg_iterator (state_before ps1)) (state_before ps1)).

Definition issues_named (err : string) (l : list (Issue Node TreeContext))
  : list (Issue Node TreeContext) :=
  filter (fun i => String.eqb (error_name i) err) l.

Definition count_error (err : string) (l : list (Issue Node TreeContext))
  : nat :=
  len (issues_named err l).

Definition only_errors (names : list string)
           (l : list (Issue Node TreeContext)) : Prop :=
  Forall (fun i => In (error_name i) names) l.

Definition loop_errors : list string :=
  ["type-error-multiple-values"; "type-error-too-few-arguments"].

(** After [n] turns of the loop: at most [n] rounds of too-few-arguments
    issues have been emitted, and if there is one at all, the iterator has
    run out without any keyword having been seen. *)
Definition too_few_inv (n : nat) (s : state) : Prop :=
  count_error "type-error-too-few-arguments" (issues s)
  <= n * len calling_nodes /\
  (count_error "type-error-too-few-arguments" (issues s) = 0 \/
   (keys_only s = false /\ var_arg_iterator s = [])).

Definition stream_ok (s : state) : Prop :=
  incl (var_arg_iterator s) unpacked /\
  forall k lazy_context,
    In (k, lazy_context) (non_matching_keys s) ->
    In (Some k, lazy_context) unpacked /\ dict_get k pdict = None.

(** The node of a tree-backed argument, or the [argument] node around it
    for the value of a keyword argument. *)
Definition argument_node (data : Node) : Node :=
  if String.eqb (type (parent data)) "argument" then parent data else data.

(** [isinstance(lazy_context, LazyTreeContext)] *)
Definition is_tree (l : LazyContext Node TreeContext Evaluator) : bool :=
  match l with LazyTreeContext _ _ => true | _ => false end.


(** What a plain parameter is bound to when no argument is left for it:
    its default in the default-param context, or [LazyUnknownContext]. *)
Definition default_or_unknown (p : Param Node)
  : LazyContext Node TreeContext Evaluator :=
  match default p with
  | Some d => LazyTreeContext (get_default_param_context execution_context) d
  | None => LazyUnknownContext
  end.

(** A parameter without stars and without default. *)
Definition needs_argument (p : Param Node) : bool :=
  negb (Nat.eqb (star_count p) 1) && negb (Nat.eqb (star_count p) 2) &&
  match default p with None => true | Some _ => false end.

(** Binding by position, as Python does it for plain parameters: the
    parameters take the arguments in order, and the parameters left over
    fall back on their defaults. *)
Fixpoint positional_binding (ps : list (Param Node))
         (args : list (LazyContext Node TreeContext Evaluator))
  : list (ExecutedParam Node TreeContext Evaluator) :=
  match ps with
  | [] => []
  | p :: ps' =>
      match args with
      | a :: args' =>
          mkExecutedParam execution_context p a :: positional_binding ps' args'
      | [] =>
          mkExecutedParam execution_context p (default_or_unknown p)
          :: positional_binding ps' []
      end
  end.

(** What a parameter is bound to when the call has no arguments at all. *)
Definition empty_binding (p : Param Node)
  : LazyContext Node TreeContext Evaluator :=
  if Nat.eqb (star_count p) 1 then
    LazyKnownContext (FakeSequence (evaluator execution_context) "tuple" [])
  else if Nat.eqb (star_count p) 2 then
    LazyKnownContext (FakeDict (evaluator execution_context) [])
  else default_or_unknown p.

(** The too-many-arguments issue for the first of the arguments [rest]. *)
Definition too_many_for (rest : list (Argument Node TreeContext Evaluator))
  : list (Issue Node TreeContext) :=
  match rest with
  | [] => []
  | (_, lazy_context) :: _ =>
      if list_bool calling_nodes then
        _add_argument_issue parent type
          (get_default_param_context execution_context)
          "type-error-too-many-arguments" lazy_context
          (_error_argument_count (tree_node execution_context) (len unpacked))
      else []
  end.

(** The four shapes an issue of a call has. *)
Definition issue_of_call (i : Issue Node TreeContext) : Prop :=
  issue_context i = get_default_param_context execution_context /\
  ((error_name i = "type-error-multiple-values" /\
    In (issue_node i) calling_nodes /\
    exists key, message i = multiple_values_message execution_context key) \/
   (error_name i = "type-error-too-few-arguments" /\
    In (issue_node i) calling_nodes /\
    message i
    = _error_argument_count (tree_node execution_context) (len unpacked)) \/
   (error_name i = "type-error-keyword-argument" /\
    exists key,
      message i = unexpected_keyword_message execution_context key) \/
   (error_name i = "type-error-too-many-arguments" /\
    calling_nodes <> [] /\
    message i
    = _error_argument_count (tree_node execution_context) (len unpacked))).

(** How the flags of the keyword loop hang together: unmatched keys and
    the multiple-values flag come with [keys_only], a multiple-values
    issue comes with its flag, and [keys_only] is only set by an argument
    of the call that has a key. *)
Definition keyword_inv (s : state) : Prop :=
  incl (var_arg_iterator s) unpacked /\
  (non_matching_keys s <> [] -> keys_only s = true) /\
  (had_multiple_value_error s = true -> keys_only s = true) /\
  (filter (fun i => String.eqb (error_name i) "type-error-multiple-values")
          (issues s) <> [] ->
   had_multiple_value_error s = true) /\
  (keys_only s = true -> exists k a, In (Some k, a) unpacked).

(** The number of parameters of a function that have neither a default
    nor stars. *)
Definition required_count (funcdef : Funcdef Node) : nat :=
  len (filter (fun p => negb (has_default_or_star p)) (get_params funcdef)).

(** An argument of the call, with or without key. *)
Definition from_call (l : LazyContext Node TreeContext Evaluator) : Prop :=
  exists key, In (key, l) unpacked.

(** What an executed parameter of the call can be: it is made in this
    execution for a parameter of the function, and it binds an argument of
    the call, the default of its parameter, [LazyUnknownContext], a tuple
    of arguments of the call, or a dict of keyword arguments of the
    call. *)
Definition bound_value_ok (e : ExecutedParam Node TreeContext Evaluator)
  : Prop :=
  _execution_context e = execution_context /\
  In (_param_node e) params /\
  (from_call (_lazy_context e) \/
   (exists d,
       default (_param_node e) = Some d /\
       _lazy_context e
       = LazyTreeContext (get_default_param_context execution_context) d) \/
   _lazy_context e = LazyUnknownContext \/
   (exists lazy_context_list,
       _lazy_context e
       = LazyKnownContext
           (FakeSequence (evaluator execution_context) "tuple"
                         lazy_context_list) /\
       forall x, In x lazy_context_list -> from_call x) \/
   (exists dct,
       _lazy_context e
       = LazyKnownContext (FakeDict (evaluator execution_context) dct) /\
       forall k x, In (k, x) dct -> In (Some k, x) unpacked)).

Definition keys_bound_ok (s : state) : Prop :=
  forall k e, In (k, e) (keys_used s) -> bound_value_ok e.

(** The parameters [done] so far all have their entry in [keys_used],
    unless the iterator has run out. *)
Definition covered (done : list (Param Node)) (s : state) : Prop :=
  var_arg_iterator s = [] \/
  forall q, In q done -> exists e, dict_get (name q) (keys_used s) = Some e.
End Properties.

(** ** Concrete calls

    Nodes are written as the path from the node up to the root, each step
    with its type and its source text; the parent is the rest of the
    path.  Tree contexts are named by strings. *)

Module Examples.
Definition node : Type := list (string * string).
Definition node_parent (n : node) : node := tl n.
Definition node_type (n : node) : string := fst (hd ("", "") n).

Definition lazy : Type := LazyContext node string unit.
Definition argument : Type := Argument node string unit.

Definition call_arguments (items : list argument) (calling : list node)
  : Arguments node string unit :=
  mkArguments (fun _ => items) calling.

(** A function [f] defined in class scope ["C"], called from ["module"]. *)
Definition execution (params : list (Param node))
  : ExecutionContext node string unit :=
  mkExecutionContext (mkFuncdef "f" params) tt "f-parent" "C".

Definition plain (n : string) : Param node := mkParam n 0 None.
Definition with_default (n src : string) : Param node :=
  mkParam n 0 (Some [("number", src); ("param", n); ("parameters", "")]).
Definition star (n : string) : Param node := mkParam n 1 None.
Definition star_star (n : string) : Param node := mkParam n 2 None.

(** The trailer of the call and its argument list. *)
Definition trailer (src : string) : node := [("trailer", src)].
Definition arglist (src : string) : node :=
  ("arglist", src) :: trailer src.

(** A positional argument [v] and the value [v] of a keyword argument
    [k=v] in the call with arguments [src]. *)
Definition positional (v src : string) : lazy :=
  LazyTreeContext "module" (("number", v) :: arglist src).
Definition keyword_value (k v src : string) : lazy :=
  LazyTreeContext "module"
    (("number", v) :: ("argument", String.concat "" [k; "="; v])
                   :: arglist src).

(** A value that is already known, as star-unpacking hands it over. *)
Definition known (c : string) : lazy :=
  LazyKnownContext (OtherContext c).

Definition run (params : list (Param node)) (items : list argument)
           (calling : list node) :=
  get_executed_params node_parent node_type
                      (execution params) (call_arguments items calling).

(** [def f(x, y)] called as [f(1, y=2, x=3)]. *)
Definition xy : list (Param node) := [plain "x"; plain "y"].
Definition call_1_y2_x3 : list argument :=
  [(None, positional "1" "1, y=2, x=3");
   (Some "y", keyword_value "y" "2" "1, y=2, x=3");
   (Some "x", keyword_value "x" "3" "1, y=2, x=3")].

(** The parameter list [x, x=1] with a repeated name, called as
    [f(x=5)]. *)
Definition x_twice : list (Param node) := [plain "x"; with_default "x" "1"].
Definition call_x5 : list argument := [(Some "x", keyword_value "x" "5" "x=5")].

(** [def f(x, y)] with the stream [x=1, 2]: a positional item after a
    keyword item. *)
Definition call_x1_2 : list argument :=
  [(Some "x", keyword_value "x" "1" "x=1, 2");
   (None, positional "2" "x=1, 2")].

(** [def f(x, y, z)] called as [f(z=1)]. *)
Definition xyz : list (Param node) := [plain "x"; plain "y"; plain "z"].
Definition call_z1 : list argument := [(Some "z", keyword_value "z" "1" "z=1")].


(** A function with the parameters [*args] and [**kwargs], called as
    [f(1, 2, a=3)]. *)
Definition args_kwargs : list (Param node) := [star "args"; star_star "kwargs"].
Definition call_1_2_a3 : list argument :=
  [(None, positional "1" "1, 2, a=3");
   (None, positional "2" "1, 2, a=3");
   (Some "a", keyword_value "a" "3" "1, 2, a=3")].

(** [def f(x)] called as [f(1, 2, 3)], and as [f(1, *v)] where the
    unpacking of [v] hands over a known value. *)
Definition call_1_2_3 : list argument :=
  [(None, positional "1" "1, 2, 3");
   (None, positional "2" "1, 2, 3");
   (None, positional "3" "1, 2, 3")].
Definition call_1_star_v : list argument :=
  [(None, positional "1" "1, *v"); (None, known "v[0]")].

(** [def f(x, y=1)] called as [f()]. *)
Definition x_y1 : list (Param node) := [plain "x"; with_default "y" "1"].

(** An inference engine for the examples: contexts are named by strings,
    every lazy context infers to an ["int"] instance, an annotated
    parameter ["x"] is annotated with ["object"], and ["int"] is a
    subclass of ["object"]. *)
Definition example_lazy_infer (l : lazy) : list string := ["int()"].
Definition example_class (c : string) : string :=
  if String.eqb c "int()" then "int" else c.
Definition example_annotation (e : ExecutionContext node string unit)
           (p : Param node) : list string :=
  if String.eqb (name p) "x" then ["object"] else [].
Definition example_docstring (e : ExecutionContext node string unit)
           (p : Param node) : list string := [].
Definition example_execute (cs : list string) : list string := cs.
Definition example_subclass (c1 c2 : string) : bool :=
  String.eqb c1 c2 || String.eqb c2 "object".

(** [def f(x, y)] called as [f(y=2, x=1)]. *)
Definition call_y2_x1 : list argument :=
  [(Some "y", keyword_value "y" "2" "y=2, x=1");
   (Some "x", keyword_value "x" "1" "y=2, x=1")].

(** [def f(x)] called as [f(x=1, q=2)]. *)
Definition call_x1_q2 : list argument :=
  [(Some "x", keyword_value "x" "1" "x=1, q=2");
   (Some "q", keyword_value "q" "2" "x=1, q=2")].
End Examples.

(** ** Facts about dictionaries *)

Section DictFacts.
Variable V : Type.
Implicit Types (d : dict V) (k : string) (v : V).

Lemma dict_get_set_same k v d : dict_get k (dict_set k v d) = Some v.
Proof.
  induction d as [|[k' v'] d IH]; simpl.
  - now rewrite String.eqb_refl.
  - destruct (String.eqb k k') eqn:E; simpl; rewrite E; auto.
Qed.

Lemma dict_get_set_other k k' v d :
  k <> k' -> dict_get k (dict_set k' v d) = dict_get k d.
Proof.
  intros Hne. induction d as [|[k0 v0] d IH]; simpl.
  - apply String.eqb_neq in Hne. now rewrite Hne.
  - destruct (String.eqb k' k0) eqn:E; simpl.
    + apply String.eqb_eq in E; subst k0.
      apply String.eqb_neq in Hne. now rewrite Hne.
    + now rewrite IH.
Qed.

Lemma dict_get_In k v d : dict_get k d = Some v -> In (k, v) d.
Proof.
  induction d as [|[k' v'] d IH]; simpl; [discriminate|].
  destruct (String.eqb k k') eqn:E.
  - apply String.eqb_eq in E; subst. intros [= ->]. now left.
  - intros H. right. auto.
Qed.

Lemma dict_get_None k d : dict_get k d = None <-> ~ In k (dict_keys d).
Proof.
  induction d as [|[k' v'] d IH]; simpl.
  - tauto.
  - destruct (String.eqb k k') eqn:E.
    + apply String.eqb_eq in E; subst. split; [discriminate|tauto].
    + apply String.eqb_neq in E. rewrite IH. split.
      * intros H [H1|H1]; [now apply E|now apply H].
      * tauto.
Qed.

Lemma dict_set_In k v d k0 v0 :
  In (k0, v0) (dict_set k v d) -> In (k0, v0) d \/ (k0 = k /\ v0 = v).
Proof.
  induction d as [|[k' v'] d IH]; simpl.
  - intros [[= <- <-]|[]]. now right.
  - destruct (String.eqb k k') eqn:E; simpl.
    + apply String.eqb_eq in E; subst k'.
      intros [[= <- <-]|H]; [now right|left; now right].
    + intros [H|H]; [left; now left|].
      destruct (IH H) as [H1|H1]; [left; now right|now right].
Qed.

Lemma dict_keys_set k v d k0 :
  In k0 (dict_keys (dict_set k v d)) -> k0 = k \/ In k0 (dict_keys d).
Proof.
  unfold dict_keys. rewrite in_map_iff. intros [[k1 v1] [<- H]].
  apply dict_set_In in H. destruct H as [H|[-> _]]; [right|now left].
  simpl. apply in_map_iff. now exists (k1, v1).
Qed.

Lemma dict_set_length k v d : len (dict_set k v d) <= S (len d).
Proof.
  induction d as [|[k' v'] d IH]; simpl; [lia|].
  destruct (String.eqb k k'); simpl; lia.
Qed.

Lemma dict_mem_true k d : dict_mem k d = true <-> In k (dict_keys d).
Proof.
  unfold dict_mem. destruct (dict_get k d) eqn:E.
  - split; [intros _|reflexivity].
    apply dict_get_In in E. apply in_map_iff. now exists (k, v).
  - apply dict_get_None in E. split; [discriminate|tauto].
Qed.
End DictFacts.

(** ** Facts about the binder *)

Section BinderFacts.
Variables Node TreeContext Evaluator : Type.
Variable parent : Node -> Node.
Variable type : Node -> string.
Variable execution_context : ExecutionContext Node TreeContext Evaluator.
Variable var_args : Arguments Node TreeContext Evaluator.

Local Abbreviation params := (get_params (tree_node execution_context)).
Local Abbreviation calling_nodes := (get_calling_nodes var_args).
Local Abbreviation unpacked := (unpacked_va execution_context var_args).
Local Abbreviation pdict := (param_dict execution_context).
Local Abbreviation step := (bind_param execution_context var_args).
Local Abbreviation drain := (keyword_loop execution_context var_args).
Local Abbreviation kstep := (keyword_step execution_context var_args).
Local Abbreviation state := (State Node TreeContext Evaluator).
Local Abbreviation keys_ok := (keys_ok execution_context).
Local Abbreviation state_before := (state_before execution_context var_args).
Local Abbreviation state_drained :=
  (state_drained execution_context var_args).
Local Abbreviation argument_in_hand :=
  (argument_in_hand execution_context var_args).
Local Abbreviation too_few_inv := (too_few_inv var_args).
Local Abbreviation stream_ok := (stream_ok execution_context var_args).
Local Abbreviation argument_node := (argument_node parent type).
Implicit Types l : list (Issue Node TreeContext).

(** *** The dictionary of parameters *)

Lemma fold_param_dict_In (ps : list (Param Node)) :
  forall d k p,
    In (k, p) (fold_left (fun d q => dict_set (name q) q d) ps d) ->
    In (k, p) d \/ (In p ps /\ name p = k).
Proof.
  induction ps as [|q ps IH]; intros d k p H; simpl in *; [now left|].
  apply IH in H. destruct H as [H|[H1 H2]].
  - apply dict_set_In in H. destruct H as [H|[-> ->]]; [now left|].
    right. split; [now left|reflexivity].
  - right. split; [now right|assumption].
Qed.

Lemma fold_param_dict_length (ps : list (Param Node)) :
  forall d,
    len (fold_left (fun d q => dict_set (name q) q d) ps d) <= len d + len ps.
Proof.
  induction ps as [|q ps IH]; intros d; simpl; [lia|].
  specialize (IH (dict_set (name q) q d)).
  pose proof (dict_set_length (name q) q d). lia.
Qed.

Lemma param_dict_get k p :
  dict_get k pdict = Some p -> In p params /\ name p = k.
Proof.
  intros H. apply dict_get_In in H. unfold param_dict in H.
  apply fold_param_dict_In in H. destruct H as [[]|H]. exact H.
Qed.

Lemma param_dict_length : len pdict <= len params.
Proof.
  unfold param_dict.
  pose proof (fold_param_dict_length params []) as H. simpl in H. exact H.
Qed.

(** *** The keyword loop *)

Ltac keyword_cases k s :=
  unfold keyword_step;
  destruct (dict_get k (param_dict execution_context)) eqn:?;
  [destruct (dict_mem k (keys_used s)) eqn:?|]; simpl.

Lemma keyword_step_result_params k a (s : state) :
  result_params (kstep k a s) = result_params s.
Proof. keyword_cases k s; reflexivity. Qed.

Lemma keyword_loop_result_params it : forall s : state,
  result_params (fst (drain it s)) = result_params s.
Proof.
  induction it as [|[[k|] a] it IH]; intros s; simpl; auto.
  rewrite IH. apply keyword_step_result_params.
Qed.

Lemma keyword_step_keys_ok k a s : keys_ok s -> keys_ok (kstep k a s).
Proof.
  intros H. keyword_cases k s; try exact H.
  intros k0 e0 Hin. apply dict_set_In in Hin.
  destruct Hin as [Hin|[-> ->]]; [now apply H|]. simpl.
  match goal with E : dict_get _ _ = Some _ |- _ =>
    apply param_dict_get in E; destruct E; split; assumption end.
Qed.

Lemma keyword_loop_keys_ok it : forall s,
  keys_ok s -> keys_ok (fst (drain it s)).
Proof.
  induction it as [|[[k|] a] it IH]; intros s H; simpl; auto.
  apply IH, keyword_step_keys_ok, H.
Qed.

(** *** One parameter *)

Lemma bind_param_bound s p s1 argument e :
  drain (var_arg_iterator s) s = (s1, argument) ->
  dict_get (name p) (keys_used s1) = Some e ->
  step s p =
    mkState (result_params s1 ++ [e]) (keys_used s1) (non_matching_keys s1)
            (keys_only s1) (had_multiple_value_error s1)
            (var_arg_iterator s1) (issues s1).
Proof. intros H1 H2. unfold bind_param. rewrite H1, H2. reflexivity. Qed.

Lemma bind_param_unbound s p s1 argument :
  drain (var_arg_iterator s) s = (s1, argument) ->
  dict_get (name p) (keys_used s1) = None ->
  step s p =
    let '(result_arg, it, nmk, iss) :=
      bind_argument execution_context var_args p argument s1 in
    let executed := mkExecutedParam execution_context p result_arg in
    mkState (result_params s1 ++ [executed])
            (if is_unknown result_arg then keys_used s1
             else dict_set (name p) executed (keys_used s1))
            nmk (keys_only s1) (had_multiple_value_error s1) it iss.
Proof. intros H1 H2. unfold bind_param. rewrite H1, H2. reflexivity. Qed.

(** A turn of the loop appends one executed parameter, of the name of the
    parameter at hand and made for a parameter of the function. *)
Lemma bind_param_appends s p :
  keys_ok s -> In p params ->
  keys_ok (step s p) /\
  exists e, result_params (step s p) = result_params s ++ [e] /\
            name (_param_node e) = name p /\ In (_param_node e) params.
Proof.
  intros Hk Hp.
  destruct (drain (var_arg_iterator s) s) as [s1 argument] eqn:Hd.
  assert (Hk1 : keys_ok s1).
  { change s1 with (fst (s1, argument)). rewrite <- Hd.
    now apply keyword_loop_keys_ok. }
  assert (Hr1 : result_params s1 = result_params s).
  { change s1 with (fst (s1, argument)). rewrite <- Hd.
    apply keyword_loop_result_params. }
  destruct (dict_get (name p) (keys_used s1)) as [e|] eqn:Hg.
  - rewrite (bind_param_bound _ _ Hd Hg). simpl. split; [exact Hk1|].
    exists e. rewrite Hr1. apply dict_get_In, Hk1 in Hg. tauto.
  - rewrite (bind_param_unbound _ _ Hd Hg).
    destruct (bind_argument execution_context var_args p argument s1)
      as [[[result_arg it] nmk] iss].
    simpl. split.
    + destruct (is_unknown result_arg); [exact Hk1|].
      intros k e Hin. apply dict_set_In in Hin.
      destruct Hin as [Hin|[-> ->]]; [now apply Hk1|]. simpl. tauto.
    + eexists. rewrite Hr1. split; [reflexivity|]. simpl. tauto.
Qed.

Lemma bind_loop_appends ps : forall s,
  keys_ok s -> incl ps params ->
  keys_ok (fold_left step ps s) /\
  exists es, result_params (fold_left step ps s) = result_params s ++ es /\
             map string_name es = map name ps /\
             Forall2 (fun e p => name (_param_node e) = name p /\
                                 In (_param_node e) params) es ps.
Proof.
  induction ps as [|p ps IH]; intros s Hk Hi; simpl.
  - split; [exact Hk|]. exists []. rewrite app_nil_r. auto.
  - destruct (@bind_param_appends s p Hk) as [Hk' [e [He [Hn Hin]]]].
    { apply Hi. now left. }
    destruct (IH (step s p) Hk') as [Hk'' [es [Hes [Hm Hf]]]].
    { intros q Hq. apply Hi. now right. }
    split; [exact Hk''|]. exists (e :: es). rewrite Hes, He, <- app_assoc.
    simpl. unfold string_name at 1. rewrite Hn, Hm. auto.
Qed.

Lemma initial_keys_ok : keys_ok (initial_state execution_context var_args).
Proof. intros k e []. Qed.

Lemma bind_loop_unfold ps1 ps2 (s : state) :
  fold_left step (ps1 ++ ps2) s = fold_left step ps2 (fold_left step ps1 s).
Proof. apply fold_left_app. Qed.

Lemma map_name_injective (ps : list (Param Node)) p q :
  NoDup (map name ps) -> In p ps -> In q ps -> name p = name q -> p = q.
Proof.
  induction ps as [|r ps IH]; simpl; [intros _ []|].
  intros Hnd Hp Hq Heq. inversion Hnd as [|? ? Hnot Hnd']; subst.
  destruct Hp as [->|Hp], Hq as [->|Hq]; auto.
  - exfalso. apply Hnot. rewrite Heq. now apply in_map.
  - exfalso. apply Hnot. rewrite <- Heq. now apply in_map.
Qed.

(** The executed parameter at the place of the parameter [p] is the one the
    turn for [p] appends. *)
Lemma bind_loop_nth ps1 p ps2 e :
  params = ps1 ++ p :: ps2 ->
  let s := fold_left step ps1 (initial_state execution_context var_args) in
  result_params (step s p) = result_params s ++ [e] ->
  nth_error
    (fst (get_executed_params parent type execution_context var_args))
    (len ps1) = Some e.
Proof.
  intros Hp s He. unfold get_executed_params, bind_loop. simpl.
  rewrite Hp. change (p :: ps2) with ([p] ++ ps2).
  rewrite !bind_loop_unfold. simpl. fold s.
  destruct (@bind_loop_appends ps1 (initial_state execution_context var_args))
    as [Hk1 [es1 [Hes1 [Hm1 _]]]].
  { apply initial_keys_ok. }
  { rewrite Hp. intros q Hq. apply in_or_app. now left. }
  fold s in Hk1, Hes1. simpl in Hes1.
  destruct (@bind_param_appends s p Hk1) as [Hk2 _].
  { rewrite Hp. apply in_or_app. right. now left. }
  destruct (@bind_loop_appends ps2 (step s p) Hk2) as [_ [es2 [Hes2 _]]].
  { rewrite Hp. intros q Hq. apply in_or_app. right. now right. }
  rewrite Hes2, He, Hes1, <- app_assoc.
  assert (Hl : len es1 = len ps1).
  { rewrite <- (length_map string_name es1), Hm1. apply length_map. }
  rewrite nth_error_app2 by lia. rewrite Hl, Nat.sub_diag. reflexivity.
Qed.



(** *** The iterator *)

Lemma keyword_step_iterator k a (s : state) :
  var_arg_iterator (kstep k a s) = var_arg_iterator s.
Proof. keyword_cases k s; reflexivity. Qed.

Lemma keyword_loop_iterator it : forall s : state,
  incl (var_arg_iterator (fst (drain it s))) it.
Proof.
  induction it as [|[[k|] a] it IH]; intros s; simpl.
  - apply incl_refl.
  - apply incl_tl, IH.
  - apply incl_tl, incl_refl.
Qed.

Lemma keyword_loop_none it : forall s : state,
  snd (drain it s) = None -> var_arg_iterator (fst (drain it s)) = [].
Proof.
  induction it as [|[[k|] a] it IH]; intros s; simpl; auto. discriminate.
Qed.

Lemma star_args_loop_incl (it : PushBackIterator Node TreeContext Evaluator) :
  incl (snd (star_args_loop it)) it.
Proof.
  induction it as [|[key a] it IH]; simpl; [apply incl_refl|].
  destruct (key_bool key); simpl; [apply incl_refl|].
  destruct (star_args_loop it) as [l r]. simpl in *. now apply incl_tl.
Qed.

Lemma bind_argument_iterator p argument (s : state) result_arg it nmk iss :
  bind_argument execution_context var_args p argument s
  = (result_arg, it, nmk, iss) ->
  incl it (var_arg_iterator s).
Proof.
  unfold bind_argument.
  destruct (Nat.eqb (star_count p) 1).
  - destruct argument as [a|].
    + pose proof (star_args_loop_incl (var_arg_iterator s)) as H.
      destruct (star_args_loop (var_arg_iterator s)) as [l r].
      intros [= _ <- _ _]. exact H.
    + intros [= _ <- _ _]. apply incl_refl.
  - destruct (Nat.eqb (star_count p) 2).
    + intros [= _ <- _ _]. apply incl_refl.
    + destruct argument as [a|]; [|destruct (default p)];
        intros [= _ <- _ _]; apply incl_refl.
Qed.

Lemma bind_param_iterator (s : state) p :
  incl (var_arg_iterator (step s p)) (var_arg_iterator s).
Proof.
  destruct (drain (var_arg_iterator s) s) as [s1 argument] eqn:Hd.
  pose proof (keyword_loop_iterator (var_arg_iterator s) s) as H1.
  rewrite Hd in H1. simpl in H1.
  destruct (dict_get (name p) (keys_used s1)) as [e|] eqn:Hg.
  - rewrite (bind_param_bound _ _ Hd Hg). exact H1.
  - rewrite (bind_param_unbound _ _ Hd Hg).
    destruct (bind_argument execution_context var_args p argument s1)
      as [[[result_arg it] nmk] iss] eqn:Hb.
    simpl. apply bind_argument_iterator in Hb.
    eapply incl_tran; eassumption.
Qed.

Lemma bind_loop_iterator ps : forall s : state,
  incl (var_arg_iterator (fold_left step ps s)) (var_arg_iterator s).
Proof.
  induction ps as [|p ps IH]; intros s; simpl; [apply incl_refl|].
  eapply incl_tran; [apply IH|apply bind_param_iterator].
Qed.

(** *** Names no keyword argument and no parameter so far has used *)

Lemma keyword_step_unused k key a s :
  key <> k -> unused k s -> unused k (kstep key a s).
Proof.
  intros Hne H. keyword_cases key s; try exact H.
  intros Hin. apply dict_keys_set in Hin. destruct Hin as [->|Hin]; auto.
Qed.

Lemma keyword_loop_unused k it : forall s,
  (forall a, ~ In (Some k, a) it) -> unused k s ->
  unused k (fst (drain it s)).
Proof.
  induction it as [|[[key|] a] it IH]; intros s Hno H; simpl; auto.
  apply IH.
  - intros a' Hin. apply (Hno a'). now right.
  - apply keyword_step_unused; [|exact H].
    intros ->. apply (Hno a). now left.
Qed.

Lemma bind_param_unused k s p :
  (forall a, ~ In (Some k, a) (var_arg_iterator s)) -> name p <> k ->
  unused k s -> unused k (step s p).
Proof.
  intros Hno Hne H.
  destruct (drain (var_arg_iterator s) s) as [s1 argument] eqn:Hd.
  assert (H1 : unused k s1).
  { change s1 with (fst (s1, argument)). rewrite <- Hd.
    now apply keyword_loop_unused. }
  destruct (dict_get (name p) (keys_used s1)) as [e|] eqn:Hg.
  - rewrite (bind_param_bound _ _ Hd Hg). exact H1.
  - rewrite (bind_param_unbound _ _ Hd Hg).
    destruct (bind_argument execution_context var_args p argument s1)
      as [[[result_arg it] nmk] iss].
    unfold unused. simpl. destruct (is_unknown result_arg); [exact H1|].
    intros Hin. apply dict_keys_set in Hin. destruct Hin as [->|Hin]; auto.
Qed.

Lemma bind_loop_unused k ps : forall s,
  (forall a, ~ In (Some k, a) (var_arg_iterator s)) ->
  ~ In k (map name ps) -> unused k s -> unused k (fold_left step ps s).
Proof.
  induction ps as [|p ps IH]; intros s Hno Hnot H; simpl; [exact H|].
  apply IH.
  - intros a Hin. apply (Hno a). now apply (bind_param_iterator s p).
  - intros Hin. apply Hnot. now right.
  - apply bind_param_unused; auto. intros Heq. apply Hnot. now left.
Qed.

Lemma drain_state_before ps1 :
  drain (var_arg_iterator (state_before ps1)) (state_before ps1)
  = (state_drained ps1, argument_in_hand ps1).
Proof. unfold state_drained, argument_in_hand. now destruct (drain _ _). Qed.

Lemma state_drained_result_params ps1 :
  result_params (state_drained ps1) = result_params (state_before ps1).
Proof. apply keyword_loop_result_params. Qed.

(** A parameter whose name no keyword argument carries and no earlier
    parameter has is not in [keys_used] when its turn comes. *)
Lemma state_drained_unused ps1 (p : Param Node) :
  ~ In (name p) (map name ps1) ->
  (forall a, ~ In (Some (name p), a) unpacked) ->
  dict_get (name p) (keys_used (state_drained ps1)) = None.
Proof.
  intros Hnd Hno. apply dict_get_None.
  assert (Hit : forall a,
             ~ In (Some (name p), a) (var_arg_iterator (state_before ps1))).
  { intros a Hin. apply (Hno a).
    now apply (bind_loop_iterator ps1
                 (initial_state execution_context var_args)). }
  apply keyword_loop_unused; [exact Hit|].
  apply bind_loop_unused; [exact Hno|exact Hnd|intros []].
Qed.


(** When the keyword loop ends with a positional argument in hand, the
    items before it all had keys, and the iterator is left behind it. *)
Lemma keyword_loop_some it : forall (s : state) a,
  snd (drain it s) = Some a ->
  exists named,
    it = named ++ (None, a) :: var_arg_iterator (fst (drain it s)) /\
    Forall (fun item : Argument Node TreeContext Evaluator =>
              fst item <> None) named.
Proof.
  induction it as [|[[k|] a0] it IH]; intros s a; simpl.
  - discriminate.
  - intros H. destruct (IH _ _ H) as [named [Heq Hf]].
    exists ((Some k, a0) :: named). split.
    + simpl. now rewrite <- Heq.
    + constructor; [discriminate|exact Hf].
  - intros [= ->]. exists []. split; [reflexivity|constructor].
Qed.

(** C7.  A plain parameter that no keyword has bound and for which the
    iterator has nothing left binds its default in the default-param
    context of the function when it has a default, and
    [LazyUnknownContext] otherwise; the turn emits the too-few-arguments
    issues (one per calling node) in the second case, and only if
    [keys_only] is not set. *)
Theorem plain_param_without_argument ps1 p ps2 :
  params = ps1 ++ p :: ps2 ->
  star_count p = 0 ->
  dict_get (name p) (keys_used (state_drained ps1)) = None ->
  argument_in_hand ps1 = None ->
  nth_error
    (fst (get_executed_params parent type execution_context var_args))
    (len ps1)
  = Some (mkExecutedParam execution_context p
            match default p with
            | Some d =>
                LazyTreeContext
                  (get_default_param_context execution_context) d
            | None => LazyUnknownContext
            end) /\
  issues (step (state_before ps1) p)
  = issues (state_drained ps1) ++
    match default p with
    | Some _ => []
    | None =>
        if keys_only (state_drained ps1) then []
        else too_few_issues execution_context var_args
    end.
Proof.
  intros Hp Hstar Hg Harg.
  pose proof (bind_param_unbound _ p (drain_state_before ps1) Hg) as Hs.
  unfold bind_argument in Hs. rewrite Hstar, Harg in Hs. simpl in Hs.
  split.
  - apply (bind_loop_nth _ _ _ _ Hp). fold (state_before ps1). rewrite Hs.
    destruct (default p); simpl; now rewrite state_drained_result_params.
  - rewrite Hs. destruct (default p); simpl; [now rewrite app_nil_r|].
    destruct (keys_only (state_drained ps1)); [now rewrite app_nil_r|].
    reflexivity.
Qed.

(** C2, as amended.  When [keys_used] has an entry for the parameter after
    the keyword loop of its turn, that entry becomes the executed
    parameter and the turn ends.  The positional argument the keyword loop
    ended with, if any, has been taken from the iterator and is not pushed
    back: the iterator is left behind it. *)
Theorem bound_by_keyword_drops_item_in_hand ps1 p ps2 e :
  params = ps1 ++ p :: ps2 ->
  dict_get (name p) (keys_used (state_drained ps1)) = Some e ->
  nth_error
    (fst (get_executed_params parent type execution_context var_args))
    (len ps1) = Some e /\
  var_arg_iterator (step (state_before ps1) p)
  = var_arg_iterator (state_drained ps1) /\
  forall a,
    argument_in_hand ps1 = Some a ->
    exists named,
      var_arg_iterator (state_before ps1)
      = named ++ (None, a) :: var_arg_iterator (step (state_before ps1) p) /\
      Forall (fun item : Argument Node TreeContext Evaluator =>
                fst item <> None) named.
Proof.
  intros Hp Hg.
  pose proof (bind_param_bound _ p (drain_state_before ps1) Hg) as Hs.
  split; [|split].
  - apply (bind_loop_nth _ _ _ _ Hp). fold (state_before ps1). rewrite Hs.
    simpl. now rewrite state_drained_result_params.
  - now rewrite Hs.
  - intros a Ha. rewrite Hs. simpl. now apply keyword_loop_some.
Qed.

(** *** The issues by error name *)

Lemma issues_named_app err l1 l2 :
  issues_named err (l1 ++ l2) = issues_named err l1 ++ issues_named err l2.
Proof. apply filter_app. Qed.

Lemma count_error_app err l1 l2 :
  count_error err (l1 ++ l2) = count_error err l1 + count_error err l2.
Proof. unfold count_error. now rewrite issues_named_app, length_app. Qed.

Lemma issues_named_other err names l :
  only_errors names l -> ~ In err names -> issues_named err l = [].
Proof.
  intros H Hnot. induction H as [|i l Hi H IH]; simpl; [reflexivity|].
  destruct (String.eqb (error_name i) err) eqn:E; [|exact IH].
  apply String.eqb_eq in E. subst err. contradiction.
Qed.

Lemma issues_named_same err l :
  only_errors [err] l -> issues_named err l = l.
Proof.
  intros H. induction H as [|i l Hi H IH]; simpl; [reflexivity|].
  destruct Hi as [<-|[]]. rewrite String.eqb_refl. now rewrite IH.
Qed.

Lemma only_errors_app names l1 l2 :
  only_errors names l1 -> only_errors names l2 -> only_errors names (l1 ++ l2).
Proof. intros H1 H2. apply Forall_app. now split. Qed.

Lemma only_errors_incl names names' l :
  incl names names' -> only_errors names l -> only_errors names' l.
Proof. intros Hi H. eapply Forall_impl; [|exact H]. intros i. apply Hi. Qed.

Lemma only_errors_flat_map (A : Type) names
      (f : A -> list (Issue Node TreeContext)) (l : list A) :
  (forall x, only_errors names (f x)) -> only_errors names (flat_map f l).
Proof.
  intros H. induction l as [|x l IH]; simpl; [constructor|].
  apply only_errors_app; auto.
Qed.

Lemma only_errors_map (A : Type) err
      (f : A -> Issue Node TreeContext) (l : list A) :
  (forall x, error_name (f x) = err) -> only_errors [err] (map f l).
Proof.
  intros H. apply Forall_forall. intros i Hi.
  apply in_map_iff in Hi. destruct Hi as [x [<- _]]. left. symmetry. apply H.
Qed.

Lemma too_few_issues_only :
  only_errors ["type-error-too-few-arguments"]
              (too_few_issues execution_context var_args).
Proof. apply only_errors_map. reflexivity. Qed.

Lemma count_too_few_issues :
  count_error "type-error-too-few-arguments"
              (too_few_issues execution_context var_args)
  = len calling_nodes.
Proof.
  unfold count_error. rewrite (issues_named_same too_few_issues_only).
  apply length_map.
Qed.

Lemma add_argument_issue_only ctx err
      (lazy_context : LazyContext Node TreeContext Evaluator) m :
  only_errors [err] (_add_argument_issue parent type ctx err lazy_context m).
Proof.
  destruct lazy_context; simpl; constructor; [now left|constructor].
Qed.

Lemma keyword_step_issues k a (s : state) :
  exists l, issues (kstep k a s) = issues s ++ l /\
            only_errors ["type-error-multiple-values"] l.
Proof.
  keyword_cases k s.
  - eexists. split; [reflexivity|]. apply only_errors_map. reflexivity.
  - exists []. rewrite app_nil_r. split; [reflexivity|constructor].
  - exists []. rewrite app_nil_r. split; [reflexivity|constructor].
Qed.

Lemma keyword_loop_issues it : forall s : state,
  exists l, issues (fst (drain it s)) = issues s ++ l /\
            only_errors ["type-error-multiple-values"] l.
Proof.
  induction it as [|[[k|] a] it IH]; intros s; simpl.
  - exists []. rewrite app_nil_r. split; [reflexivity|constructor].
  - destruct (keyword_step_issues k a s) as [l1 [H1 Ho1]].
    destruct (IH (kstep k a s)) as [l2 [H2 Ho2]].
    exists (l1 ++ l2). rewrite H2, H1, app_assoc. split; [reflexivity|].
    now apply only_errors_app.
  - exists []. rewrite app_nil_r. split; [reflexivity|constructor].
Qed.

Lemma bind_argument_issues p argument (s : state) result_arg it nmk iss :
  bind_argument execution_context var_args p argument s
  = (result_arg, it, nmk, iss) ->
  iss = issues s \/
  (iss = issues s ++ too_few_issues execution_context var_args /\
   argument = None /\ keys_only s = false).
Proof.
  unfold bind_argument.
  destruct (Nat.eqb (star_count p) 1).
  - destruct argument as [a|];
      [destruct (star_args_loop (var_arg_iterator s))|];
      intros [= _ _ _ <-]; now left.
  - destruct (Nat.eqb (star_count p) 2); [intros [= _ _ _ <-]; now left|].
    destruct argument as [a|]; [intros [= _ _ _ <-]; now left|].
    destruct (default p); [intros [= _ _ _ <-]; now left|].
    destruct (keys_only s) eqn:E; intros [= _ _ _ <-]; [now left|].
    right. auto.
Qed.

Lemma bind_param_issues (s : state) p :
  only_errors loop_errors (issues s) ->
  only_errors loop_errors (issues (step s p)).
Proof.
  intros H.
  destruct (drain (var_arg_iterator s) s) as [s1 argument] eqn:Hd.
  assert (H1 : only_errors loop_errors (issues s1)).
  { destruct (keyword_loop_issues (var_arg_iterator s) s) as [l [Hl Ho]].
    rewrite Hd in Hl. simpl in Hl. rewrite Hl.
    apply only_errors_app; [exact H|].
    eapply only_errors_incl; [|exact Ho].
    intros x [<-|[]]. now left. }
  destruct (dict_get (name p) (keys_used s1)) as [e|] eqn:Hg.
  - now rewrite (bind_param_bound _ _ Hd Hg).
  - rewrite (bind_param_unbound _ _ Hd Hg).
    destruct (bind_argument execution_context var_args p argument s1)
      as [[[result_arg it] nmk] iss] eqn:Hb.
    simpl. apply bind_argument_issues in Hb.
    destruct Hb as [->|[-> _]]; [exact H1|].
    apply only_errors_app; [exact H1|].
    eapply only_errors_incl; [|apply too_few_issues_only].
    intros x [<-|[]]. right. now left.
Qed.

Lemma bind_loop_issues :
  only_errors loop_errors (issues (bind_loop execution_context var_args)).
Proof.
  unfold bind_loop.
  assert (H : only_errors loop_errors
                (issues (initial_state execution_context var_args)))
    by constructor.
  revert H. generalize (initial_state execution_context var_args).
  induction params as [|p ps IH]; intros s H; simpl; [exact H|].
  apply IH, bind_param_issues, H.
Qed.

Lemma consolidated_too_few_only (s : state) :
  only_errors ["type-error-too-few-arguments"]
              (consolidated_too_few execution_context var_args s).
Proof.
  unfold consolidated_too_few. destruct (keys_only s); [|constructor].
  apply only_errors_flat_map. intros k.
  destruct (dict_get k pdict); [|constructor].
  match goal with |- context [if ?b then _ else _] => destruct b end;
    [apply too_few_issues_only|constructor].
Qed.

Lemma unexpected_keyword_issues_only (s : state) :
  only_errors ["type-error-keyword-argument"]
    (unexpected_keyword_issues parent type execution_context s).
Proof.
  unfold unexpected_keyword_issues. apply only_errors_flat_map.
  intros [key lazy_context]. apply add_argument_issue_only.
Qed.

Lemma too_many_issues_only (s : state) :
  only_errors ["type-error-too-many-arguments"]
    (too_many_issues parent type execution_context var_args s).
Proof.
  unfold too_many_issues.
  destruct (var_arg_iterator s) as [|[first_key lazy_context] rest];
    [constructor|].
  destruct (list_bool calling_nodes); [|constructor].
  apply add_argument_issue_only.
Qed.

Ltac not_listed :=
  let H := fresh in
  intros H; simpl in H;
  repeat (destruct H as [H|H]; [discriminate H|]); exact H.

(** The too-many-arguments and the unexpected-keyword issues of a call
    are the ones of the last two steps. *)
Lemma too_many_issues_named :
  issues_named "type-error-too-many-arguments"
    (snd (get_executed_params parent type execution_context var_args))
  = too_many_issues parent type execution_context var_args
                    (bind_loop execution_context var_args).
Proof.
  unfold get_executed_params. simpl. rewrite !issues_named_app.
  rewrite (issues_named_other _ bind_loop_issues) by not_listed.
  rewrite (issues_named_other _ (consolidated_too_few_only _)) by not_listed.
  rewrite (issues_named_other _ (unexpected_keyword_issues_only _))
    by not_listed.
  simpl. apply issues_named_same, too_many_issues_only.
Qed.

Lemma unexpected_keyword_issues_named :
  issues_named "type-error-keyword-argument"
    (snd (get_executed_params parent type execution_context var_args))
  = unexpected_keyword_issues parent type execution_context
                              (bind_loop execution_context var_args).
Proof.
  unfold get_executed_params. simpl. rewrite !issues_named_app.
  rewrite (issues_named_other _ bind_loop_issues) by not_listed.
  rewrite (issues_named_other _ (consolidated_too_few_only _)) by not_listed.
  rewrite (issues_named_other _ (too_many_issues_only _)) by not_listed.
  rewrite app_nil_r. simpl.
  apply issues_named_same, unexpected_keyword_issues_only.
Qed.

(** *** Counting the too-few-arguments issues *)

Lemma keyword_loop_count_too_few it (s : state) :
  count_error "type-error-too-few-arguments" (issues (fst (drain it s)))
  = count_error "type-error-too-few-arguments" (issues s).
Proof.
  destruct (keyword_loop_issues it s) as [l [Hl Ho]].
  rewrite Hl, count_error_app. unfold count_error at 2.
  rewrite (issues_named_other _ Ho) by not_listed. simpl. lia.
Qed.

Lemma keyword_loop_too_few n (s : state) :
  too_few_inv n s -> too_few_inv n (fst (drain (var_arg_iterator s) s)).
Proof.
  intros [Hc Hd]. unfold too_few_inv.
  rewrite keyword_loop_count_too_few. split; [exact Hc|].
  destruct Hd as [Hd|[Hk Hi]]; [now left|].
  rewrite Hi. simpl. right. auto.
Qed.

Lemma bind_param_too_few n (s : state) p :
  too_few_inv n s -> too_few_inv (S n) (step s p).
Proof.
  intros Hinv. apply keyword_loop_too_few in Hinv.
  pose proof (keyword_loop_none (var_arg_iterator s) s) as Hnone.
  destruct (drain (var_arg_iterator s) s) as [s1 argument] eqn:Hd.
  simpl in Hinv, Hnone. destruct Hinv as [Hc Hdis].
  assert (Hweak : too_few_inv (S n) s1).
  { split; [lia|exact Hdis]. }
  destruct (dict_get (name p) (keys_used s1)) as [e|] eqn:Hg.
  - rewrite (bind_param_bound _ _ Hd Hg). exact Hweak.
  - rewrite (bind_param_unbound _ _ Hd Hg).
    destruct (bind_argument execution_context var_args p argument s1)
      as [[[result_arg it] nmk] iss] eqn:Hb.
    pose proof (bind_argument_iterator _ _ _ Hb) as Hit.
    apply bind_argument_issues in Hb.
    unfold too_few_inv. simpl.
    destruct Hb as [->|[-> [-> Hk]]].
    + split; [lia|]. destruct Hdis as [H0|[Hk Hi]]; [now left|].
      right. split; [exact Hk|]. rewrite Hi in Hit.
      destruct it as [|x it]; [reflexivity|].
      exfalso. apply (Hit x). now left.
    + rewrite count_error_app, count_too_few_issues.
      split; [lia|]. right. split; [exact Hk|].
      rewrite (Hnone eq_refl) in Hit.
      destruct it as [|x it]; [reflexivity|].
      exfalso. apply (Hit x). now left.
Qed.

Lemma bind_loop_too_few ps : forall n (s : state),
  too_few_inv n s -> too_few_inv (len ps + n) (fold_left step ps s).
Proof.
  induction ps as [|p ps IH]; intros n s H; simpl; [exact H|].
  replace (S (len ps + n)) with (len ps + S n) by lia.
  apply IH, bind_param_too_few, H.
Qed.

Lemma count_error_flat_map (A : Type) err bound
      (f : A -> list (Issue Node TreeContext)) (l : list A) :
  (forall x, count_error err (f x) <= bound) ->
  count_error err (flat_map f l) <= len l * bound.
Proof.
  intros H. induction l as [|x l IH]; simpl; [unfold count_error; simpl; lia|].
  rewrite count_error_app. specialize (H x). lia.
Qed.

Lemma consolidated_too_few_count (s : state) :
  count_error "type-error-too-few-arguments"
              (consolidated_too_few execution_context var_args s)
  <= len params * len calling_nodes.
Proof.
  unfold consolidated_too_few.
  destruct (keys_only s); [|unfold count_error; simpl; lia].
  eapply Nat.le_trans.
  - apply count_error_flat_map with (bound := len calling_nodes).
    intros k. destruct (dict_get k pdict);
      [|unfold count_error; simpl; lia].
    match goal with |- context [if ?b then _ else _] => destruct b end;
      [rewrite count_too_few_issues; lia|unfold count_error; simpl; lia].
  - apply Nat.mul_le_mono_r. unfold missing_keys.
    eapply Nat.le_trans; [apply filter_length_le|].
    unfold dict_keys. rewrite length_map. apply param_dict_length.
Qed.

(** C3, as amended.  A call gets at most one too-many-arguments issue.
    The too-few-arguments issues are not held to one: a call gets at most
    as many of them as there are formal parameters times calling
    nodes. *)
Theorem argument_count_issues_bounded :
  let emitted :=
    snd (get_executed_params parent type execution_context var_args) in
  count_error "type-error-too-many-arguments" emitted <= 1 /\
  count_error "type-error-too-few-arguments" emitted
  <= len params * len calling_nodes.
Proof.
  split.
  - unfold count_error. rewrite too_many_issues_named.
    unfold too_many_issues.
    destruct (var_arg_iterator (bind_loop execution_context var_args))
      as [|[first_key lazy_context] rest]; [simpl; lia|].
    destruct (list_bool calling_nodes); [|simpl; lia].
    destruct lazy_context; simpl; lia.
  - unfold get_executed_params. simpl. rewrite !count_error_app.
    unfold count_error at 3 4.
    rewrite (issues_named_other _ (unexpected_keyword_issues_only _))
      by not_listed.
    rewrite (issues_named_other _ (too_many_issues_only _)) by not_listed.
    simpl.
    destruct (@bind_loop_too_few params 0
                (initial_state execution_context var_args)) as [Hc Hd].
    { split; [unfold count_error; simpl; lia|now left]. }
    fold (bind_loop execution_context var_args) in Hc, Hd.
    rewrite Nat.add_0_r in Hc.
    pose proof (consolidated_too_few_count
                  (bind_loop execution_context var_args)) as Hcons.
    destruct Hd as [H0|[Hk _]].
    + lia.
    + unfold consolidated_too_few in *. rewrite Hk in *.
      unfold count_error at 2. simpl. lia.
Qed.

(** *** Where the iterator and the unmatched keys come from *)

Lemma keyword_loop_stream_ok it : forall s : state,
  incl it unpacked ->
  (forall k lazy_context,
      In (k, lazy_context) (non_matching_keys s) ->
      In (Some k, lazy_context) unpacked /\ dict_get k pdict = None) ->
  forall k lazy_context,
    In (k, lazy_context) (non_matching_keys (fst (drain it s))) ->
    In (Some k, lazy_context) unpacked /\ dict_get k pdict = None.
Proof.
  induction it as [|[[key|] a] it IH]; intros s Hi H; simpl; auto.
  apply IH.
  - intros x Hx. apply Hi. now right.
  - keyword_cases key s; try exact H.
    intros k lazy_context Hin. apply dict_set_In in Hin.
    destruct Hin as [Hin|[-> ->]]; [now apply H|].
    split; [apply Hi; now left|assumption].
Qed.

Lemma bind_argument_non_matching p argument (s : state)
      result_arg it nmk iss :
  bind_argument execution_context var_args p argument s
  = (result_arg, it, nmk, iss) ->
  nmk = non_matching_keys s \/ nmk = [].
Proof.
  unfold bind_argument.
  destruct (Nat.eqb (star_count p) 1).
  - destruct argument as [a|];
      [destruct (star_args_loop (var_arg_iterator s))|];
      intros [= _ _ <- _]; now left.
  - destruct (Nat.eqb (star_count p) 2); [intros [= _ _ <- _]; now right|].
    destruct argument as [a|]; [intros [= _ _ <- _]; now left|].
    destruct (default p); [intros [= _ _ <- _]; now left|].
    destruct (keys_only s); intros [= _ _ <- _]; now left.
Qed.

Lemma bind_param_stream_ok (s : state) p :
  stream_ok s -> stream_ok (step s p).
Proof.
  intros [Hi Hn]. split.
  - eapply incl_tran; [apply bind_param_iterator|exact Hi].
  - pose proof (keyword_loop_stream_ok _ Hi Hn) as H1.
    destruct (drain (var_arg_iterator s) s) as [s1 argument] eqn:Hd.
    simpl in H1.
    destruct (dict_get (name p) (keys_used s1)) as [e|] eqn:Hg.
    + rewrite (bind_param_bound _ _ Hd Hg). exact H1.
    + rewrite (bind_param_unbound _ _ Hd Hg).
      destruct (bind_argument execution_context var_args p argument s1)
        as [[[result_arg it] nmk] iss] eqn:Hb.
      simpl. apply bind_argument_non_matching in Hb.
      destruct Hb as [->| ->]; [exact H1|intros ? ? []].
Qed.

Lemma bind_loop_stream_ok :
  stream_ok (bind_loop execution_context var_args).
Proof.
  unfold bind_loop.
  assert (H : stream_ok (initial_state execution_context var_args)).
  { split; [apply incl_refl|intros ? ? []]. }
  revert H. generalize (initial_state execution_context var_args).
  induction params as [|p ps IH]; intros s H; simpl; [exact H|].
  apply IH, bind_param_stream_ok, H.
Qed.

(** *** The node an argument issue is reported at *)

Lemma too_many_issues_first_leftover first_key
      (lazy_context : LazyContext Node TreeContext Evaluator) rest :
  var_arg_iterator (bind_loop execution_context var_args)
  = (first_key, lazy_context) :: rest ->
  issues_named "type-error-too-many-arguments"
    (snd (get_executed_params parent type execution_context var_args))
  = if list_bool calling_nodes then
      _add_argument_issue parent type
        (get_default_param_context execution_context)
        "type-error-too-many-arguments" lazy_context
        (_error_argument_count (tree_node execution_context) (len unpacked))
    else [].
Proof.
  intros Hit. rewrite too_many_issues_named. unfold too_many_issues.
  now rewrite Hit.
Qed.

(** C6, as amended.  When the iterator still has items after the loop, the
    call gets one too-many-arguments issue if [var_args] has a calling
    node and the first leftover item is a [LazyTreeContext]; the issue is
    reported at the node of that first item (the [argument] node around
    it, if there is one).  In every other case there is no
    too-many-arguments issue, be it for lack of calling nodes or because
    the first leftover item is not tree-backed. *)
Theorem too_many_arguments_at_first_leftover first_key lazy_context rest :
  var_arg_iterator (bind_loop execution_context var_args)
  = (first_key, lazy_context) :: rest ->
  issues_named "type-error-too-many-arguments"
    (snd (get_executed_params parent type execution_context var_args))
  = match lazy_context with
    | LazyTreeContext _ data =>
        if list_bool calling_nodes then
          [mkIssue (get_default_param_context execution_context)
                   "type-error-too-many-arguments"
                   (argument_node data)
                   (_error_argument_count (tree_node execution_context)
                                          (len unpacked))]
        else []
    | _ => []
    end.
Proof.
  intros Hit. rewrite (too_many_issues_first_leftover Hit).
  destruct (list_bool calling_nodes); destruct lazy_context; reflexivity.
Qed.

Lemma unexpected_keyword_count (nmk : dict (LazyContext Node TreeContext Evaluator)) :
  len (flat_map
         (fun item : string * LazyContext Node TreeContext Evaluator =>
            let (key, lazy_context) := item in
            _add_argument_issue parent type
              (get_default_param_context execution_context)
              "type-error-keyword-argument" lazy_context
              (unexpected_keyword_message execution_context key)) nmk)
  = len (filter (fun item => is_tree (snd item)) nmk).
Proof.
  induction nmk as [|[key lazy_context] nmk IH]; simpl; [reflexivity|].
  rewrite length_app, IH. destruct lazy_context; reflexivity.
Qed.

(** C10.  An unexpected-keyword issue is always the issue of an unmatched
    keyword argument of the call whose value is a [LazyTreeContext], and a
    too-many-arguments issue is the issue of the first leftover item,
    which then is a [LazyTreeContext]; both are reported at the node of
    that argument.  Unmatched keywords with any other lazy context get no
    issue (the issues count the tree-backed ones), and a first leftover
    item with any other lazy context gets none either, whatever the
    calling nodes are. *)
Theorem argument_issues_need_tree_context :
  let s := bind_loop execution_context var_args in
  let emitted :=
    snd (get_executed_params parent type execution_context var_args) in
  (forall i,
      In i emitted -> error_name i = "type-error-keyword-argument" ->
      exists key context data,
        In (key, LazyTreeContext context data) (non_matching_keys s) /\
        In (Some key, LazyTreeContext context data) unpacked /\
        dict_get key pdict = None /\
        issue_node i = argument_node data) /\
  (forall i,
      In i emitted -> error_name i = "type-error-too-many-arguments" ->
      exists first_key context data rest,
        var_arg_iterator s
        = (first_key, LazyTreeContext context data) :: rest /\
        In (first_key, LazyTreeContext context data) unpacked /\
        issue_node i = argument_node data) /\
  count_error "type-error-keyword-argument" emitted
  = len (filter (fun item => is_tree (snd item)) (non_matching_keys s)) /\
  (forall first_key lazy_context rest,
      var_arg_iterator s = (first_key, lazy_context) :: rest ->
      is_tree lazy_context = false ->
      issues_named "type-error-too-many-arguments" emitted = []).
Proof.
  intros s emitted. destruct bind_loop_stream_ok as [Hi Hn]. fold s in Hi, Hn.
  split; [|split; [|split]].
  - intros i Hin Herr.
    assert (Hin' : In i (issues_named "type-error-keyword-argument" emitted)).
    { apply filter_In. split; [exact Hin|]. now apply String.eqb_eq. }
    unfold emitted in Hin'. rewrite unexpected_keyword_issues_named in Hin'.
    apply in_flat_map in Hin'. destruct Hin' as [[key lc] [Hk Hi']].
    destruct lc as [data|context data|]; simpl in Hi'; try contradiction.
    destruct Hi' as [<-|[]]. exists key, context, data.
    destruct (Hn _ _ Hk). auto.
  - intros i Hin Herr.
    assert (Hin' : In i (issues_named "type-error-too-many-arguments" emitted)).
    { apply filter_In. split; [exact Hin|]. now apply String.eqb_eq. }
    unfold emitted in Hin'. rewrite too_many_issues_named in Hin'.
    unfold too_many_issues in Hin'. fold s in Hin'.
    destruct (var_arg_iterator s) as [|[first_key lc] rest] eqn:Hit;
      [contradiction|].
    destruct (list_bool calling_nodes); [|contradiction].
    destruct lc as [data|context data|]; simpl in Hin'; try contradiction.
    destruct Hin' as [<-|[]]. exists first_key, context, data, rest.
    split; [reflexivity|]. split; [apply Hi; now left|reflexivity].
  - unfold count_error, emitted. rewrite unexpected_keyword_issues_named.
    apply unexpected_keyword_count.
  - intros first_key lc rest Hit Htree. unfold emitted.
    rewrite (too_many_issues_first_leftover Hit).
    destruct (list_bool calling_nodes); [|reflexivity].
    destruct lc; [reflexivity|discriminate|reflexivity].
Qed.

(** *** A keyword for a parameter that already has its argument *)

(** C5.  For [def f(x, y)] and the arguments [1, y=2, x=3] the executed
    parameters are [x] with the positional argument and [y] with the
    value of [y=2]; the value of [x=3] is not bound.  The call gets the
    multiple-values issue for ['x'], once for each calling node, and no
    other issue.  (The positional argument is an argument of the call,
    not a [LazyUnknownContext].) *)
Theorem duplicate_keyword_keeps_first a1 a2 a3 :
  params = [mkParam "x" 0 None; mkParam "y" 0 None] ->
  unpacked = [(None, a1); (Some "y", a2); (Some "x", a3)] ->
  is_unknown a1 = false ->
  get_executed_params parent type execution_context var_args
  = ([mkExecutedParam execution_context (mkParam "x" 0 None) a1;
      mkExecutedParam execution_context (mkParam "y" 0 None) a2],
     map (fun node =>
            mkIssue (get_default_param_context execution_context)
                    "type-error-multiple-values" node
                    (multiple_values_message execution_context "x"))
         calling_nodes) /\
  forall node,
    In node calling_nodes ->
    In (mkIssue (get_default_param_context execution_context)
                "type-error-multiple-values" node
                (multiple_values_message execution_context "x"))
       (snd (get_executed_params parent type execution_context var_args)).
Proof.
  intros Hp Hu Ha.
  enough (Heq :
            get_executed_params parent type execution_context var_args
            = ([mkExecutedParam execution_context (mkParam "x" 0 None) a1;
                mkExecutedParam execution_context (mkParam "y" 0 None) a2],
               map (fun node =>
                      mkIssue (get_default_param_context execution_context)
                              "type-error-multiple-values" node
                              (multiple_values_message execution_context
                                                       "x"))
                   calling_nodes)).
  { split; [exact Heq|]. intros node Hin. rewrite Heq. simpl.
    apply in_map_iff. now exists node. }
  assert (Hd : pdict = [("x", mkParam "x" 0 None); ("y", mkParam "y" 0 None)]).
  { unfold param_dict. rewrite Hp. reflexivity. }
  assert (H1 : step (initial_state execution_context var_args)
                    (mkParam "x" 0 None)
               = mkState
                   [mkExecutedParam execution_context (mkParam "x" 0 None) a1]
                   [("x", mkExecutedParam execution_context
                            (mkParam "x" 0 None) a1)]
                   [] false false [(Some "y", a2); (Some "x", a3)] []).
  { unfold bind_param, initial_state. rewrite Hu. simpl. now rewrite Ha. }
  assert (H2 : bind_loop execution_context var_args
               = mkState
                   [mkExecutedParam execution_context (mkParam "x" 0 None) a1;
                    mkExecutedParam execution_context (mkParam "y" 0 None) a2]
                   [("x", mkExecutedParam execution_context
                            (mkParam "x" 0 None) a1);
                    ("y", mkExecutedParam execution_context
                            (mkParam "y" 0 None) a2)]
                   [] true true []
                   (map (fun node =>
                           mkIssue
                             (get_default_param_context execution_context)
                             "type-error-multiple-values" node
                             (multiple_values_message execution_context "x"))
                        calling_nodes)).
  { unfold bind_loop. rewrite Hp. simpl. rewrite H1.
    unfold bind_param. simpl. unfold keyword_step. rewrite Hd. simpl.
    reflexivity. }
  unfold get_executed_params. rewrite H2. simpl.
  unfold consolidated_too_few, missing_keys. simpl. rewrite Hd. simpl.
  now rewrite app_nil_r.
Qed.

(** *** Parameters without a call *)

(** C9.  [create_default_params] returns one executed parameter for each
    formal parameter, in order: an empty fake tuple for [*args], an empty
    fake dict for [**kwargs], the default of a parameter that has one as
    a [LazyTreeContext], [LazyUnknownContext] for the others; and it emits
    no issue. *)
Theorem create_default_params_spec (funcdef : Funcdef Node) :
  let result := fst (create_default_params execution_context funcdef) in
  map _param_node result = get_params funcdef /\
  snd (create_default_params execution_context funcdef) = [] /\
  forall e,
    In e result ->
    (star_count (_param_node e) = 1 ->
     _lazy_context e
     = LazyKnownContext
         (FakeSequence (evaluator execution_context) "tuple" [])) /\
    (star_count (_param_node e) = 2 ->
     _lazy_context e
     = LazyKnownContext (FakeDict (evaluator execution_context) [])) /\
    (star_count (_param_node e) <> 1 -> star_count (_param_node e) <> 2 ->
     forall d, default (_param_node e) = Some d ->
               _lazy_context e
               = LazyTreeContext (parent_context execution_context) d) /\
    (star_count (_param_node e) <> 1 -> star_count (_param_node e) <> 2 ->
     default (_param_node e) = None ->
     _lazy_context e = LazyUnknownContext).
Proof.
  unfold create_default_params. simpl. split; [|split; [reflexivity|]].
  - rewrite map_map. simpl. apply map_id.
  - intros e He. apply in_map_iff in He. destruct He as [p [<- _]].
    unfold _create_default_param. simpl.
    split; [|split; [|split]].
    + intros ->. reflexivity.
    + intros ->. reflexivity.
    + intros H1 H2 d Hd. apply Nat.eqb_neq in H1, H2.
      now rewrite H1, H2, Hd.
    + intros H1 H2 Hd. apply Nat.eqb_neq in H1, H2.
      now rewrite H1, H2, Hd.
Qed.

(** *** Entries of [keys_used] stay *)

Lemma dict_set_keeps (V : Type) k k' (v e : V) (d : dict V) :
  dict_get k d = Some e -> dict_mem k' d = false ->
  dict_get k (dict_set k' v d) = Some e.
Proof.
  intros Hg Hm. destruct (String.eqb k k') eqn:E.
  - apply String.eqb_eq in E. subst k'. unfold dict_mem in Hm.
    now rewrite Hg in Hm.
  - apply String.eqb_neq in E. now rewrite dict_get_set_other.
Qed.

Lemma keyword_step_keeps k key a (s : state) e :
  dict_get k (keys_used s) = Some e ->
  dict_get k (keys_used (kstep key a s)) = Some e.
Proof.
  intros H. keyword_cases key s; try exact H. now apply dict_set_keeps.
Qed.

Lemma keyword_loop_keeps k it : forall (s : state) e,
  dict_get k (keys_used s) = Some e ->
  dict_get k (keys_used (fst (drain it s))) = Some e.
Proof.
  induction it as [|[[key|] a] it IH]; intros s e H; simpl; auto.
  apply IH, keyword_step_keeps, H.
Qed.

Lemma bind_param_keeps_drained k (s : state) p e :
  dict_get k (keys_used (fst (drain (var_arg_iterator s) s))) = Some e ->
  dict_get k (keys_used (step s p)) = Some e.
Proof.
  destruct (drain (var_arg_iterator s) s) as [s1 argument] eqn:Hd.
  simpl. intros H.
  destruct (dict_get (name p) (keys_used s1)) as [e'|] eqn:Hg.
  - rewrite (bind_param_bound _ _ Hd Hg). exact H.
  - rewrite (bind_param_unbound _ _ Hd Hg).
    destruct (bind_argument execution_context var_args p argument s1)
      as [[[result_arg it] nmk] iss].
    simpl. destruct (is_unknown result_arg); [exact H|].
    apply dict_set_keeps; [exact H|]. unfold dict_mem. now rewrite Hg.
Qed.

Lemma keys_used_entry_kept_fold k e ps : forall s : state,
  dict_get k (keys_used s) = Some e ->
  dict_get k (keys_used (fold_left step ps s)) = Some e.
Proof.
  induction ps as [|p ps IH]; intros s H; simpl; [exact H|].
  apply IH, bind_param_keeps_drained, keyword_loop_keeps, H.
Qed.

(** X6.  The first binding of a name is the one that stays: an entry of
    [keys_used] is never replaced, neither by a later keyword argument of
    that name nor by the turn of a parameter. *)
Theorem keys_used_entry_is_kept k e ps : forall s : state,
  dict_get k (keys_used s) = Some e ->
  dict_get k (keys_used (fold_left step ps s)) = Some e.
Proof.
  induction ps as [|p ps IH]; intros s H; simpl; [exact H|].
  apply IH. apply bind_param_keeps_drained.
  apply keyword_loop_keeps. exact H.
Qed.

(** *** Calls without keywords *)

Local Abbreviation default_or_unknown := (default_or_unknown execution_context).
Local Abbreviation empty_binding := (empty_binding execution_context).
Local Abbreviation positional_binding :=
  (positional_binding execution_context).
Local Abbreviation too_many_for :=
  (too_many_for parent type execution_context var_args).
Local Abbreviation too_few_here := (too_few_issues execution_context var_args).

Lemma bind_param_positional (s : state) p a rest :
  star_count p = 0 ->
  dict_get (name p) (keys_used s) = None ->
  var_arg_iterator s = (None, a) :: rest ->
  step s p =
    mkState (result_params s ++ [mkExecutedParam execution_context p a])
            (if is_unknown a then keys_used s
             else dict_set (name p) (mkExecutedParam execution_context p a)
                           (keys_used s))
            (non_matching_keys s) (keys_only s) (had_multiple_value_error s)
            rest (issues s).
Proof.
  intros Hs Hg Hit. unfold bind_param. rewrite Hit. simpl. rewrite Hg.
  unfold bind_argument. rewrite Hs. reflexivity.
Qed.

Lemma bind_param_exhausted (s : state) p :
  dict_get (name p) (keys_used s) = None ->
  var_arg_iterator s = [] ->
  non_matching_keys s = [] ->
  keys_only s = false ->
  step s p =
    mkState (result_params s
             ++ [mkExecutedParam execution_context p (empty_binding p)])
            (if is_unknown (empty_binding p) then keys_used s
             else dict_set (name p)
                    (mkExecutedParam execution_context p (empty_binding p))
                    (keys_used s))
            [] false (had_multiple_value_error s) []
            (issues s ++ if needs_argument p then too_few_here else []).
Proof.
  intros Hg Hit Hn Hk. unfold bind_param. rewrite Hit. simpl. rewrite Hg.
  unfold bind_argument, empty_binding, needs_argument, default_or_unknown.
  simpl. rewrite Hn, Hk.
  destruct (Nat.eqb (star_count p) 1); simpl; [now rewrite app_nil_r|].
  destruct (Nat.eqb (star_count p) 2); simpl; [now rewrite app_nil_r|].
  destruct (default p); simpl; [now rewrite app_nil_r|reflexivity].
Qed.

Lemma unused_after_set (p q : Param Node)
      (e : ExecutedParam Node TreeContext Evaluator) (b : bool)
      (d : dict (ExecutedParam Node TreeContext Evaluator)) :
  name q <> name p ->
  dict_get (name q) d = None ->
  dict_get (name q) (if b then d else dict_set (name p) e d) = None.
Proof.
  intros Hne H. destruct b; [exact H|]. now rewrite dict_get_set_other.
Qed.

Lemma exhausted_fold ps : forall s : state,
  NoDup (map name ps) ->
  (forall p, In p ps -> dict_get (name p) (keys_used s) = None) ->
  var_arg_iterator s = [] ->
  non_matching_keys s = [] ->
  keys_only s = false ->
  let s' := fold_left step ps s in
  result_params s'
  = result_params s
    ++ map (fun p => mkExecutedParam execution_context p (empty_binding p)) ps /\
  issues s'
  = issues s
    ++ flat_map (fun p => if needs_argument p then too_few_here else []) ps /\
  var_arg_iterator s' = [] /\
  keys_only s' = false /\
  non_matching_keys s' = [].
Proof.
  induction ps as [|p ps IH]; intros s Hnd Hun Hit Hn Hk; simpl.
  - rewrite !app_nil_r. auto.
  - inversion Hnd as [|? ? Hnot Hnd']; subst.
    rewrite (bind_param_exhausted s p (Hun p (or_introl eq_refl)) Hit Hn Hk).
    match goal with |- context [fold_left _ ps ?s0] =>
      destruct (IH s0 Hnd') as [Hr [Hi [Hit' [Hk' Hn']]]]; try reflexivity
    end.
    { intros q Hq. simpl. apply unused_after_set.
      - intros Heq. apply Hnot. rewrite <- Heq. now apply in_map.
      - apply Hun. now right. }
    simpl in Hr, Hi. rewrite Hr, Hi, <- !app_assoc. auto.
Qed.

Lemma positional_binding_nil ps :
  (forall p, In p ps -> star_count p = 0) ->
  positional_binding ps []
  = map (fun p => mkExecutedParam execution_context p (empty_binding p)) ps.
Proof.
  induction ps as [|p ps IH]; intros Hs; simpl; [reflexivity|].
  rewrite IH by (intros q Hq; apply Hs; now right).
  unfold empty_binding. rewrite (Hs p (or_introl eq_refl)). reflexivity.
Qed.

Lemma positional_fold ps : forall (s : state) args,
  (forall p, In p ps -> star_count p = 0) ->
  NoDup (map name ps) ->
  (forall p, In p ps -> dict_get (name p) (keys_used s) = None) ->
  var_arg_iterator s = map (fun a => (None, a)) args ->
  non_matching_keys s = [] ->
  keys_only s = false ->
  let s' := fold_left step ps s in
  result_params s' = result_params s ++ positional_binding ps args /\
  issues s'
  = issues s
    ++ flat_map (fun p => if needs_argument p then too_few_here else [])
                (skipn (len args) ps) /\
  var_arg_iterator s' = map (fun a => (None, a)) (skipn (len ps) args) /\
  keys_only s' = false /\
  non_matching_keys s' = [].
Proof.
  induction ps as [|p ps IH]; intros s args Hs Hnd Hun Hit Hn Hk.
  - simpl. rewrite skipn_nil. simpl. rewrite !app_nil_r. auto.
  - destruct args as [|a args].
    + destruct (exhausted_fold (p :: ps) s Hnd Hun Hit Hn Hk)
        as [Hr [Hi [Hit' [Hk' Hn']]]].
      cbv zeta. rewrite Hr, Hi, Hit', positional_binding_nil by exact Hs.
      rewrite skipn_nil. simpl. auto.
    + inversion Hnd as [|? ? Hnot Hnd']; subst. simpl fold_left.
      rewrite (bind_param_positional s p (Hs p (or_introl eq_refl))
                 (Hun p (or_introl eq_refl)) Hit).
      match goal with |- context [fold_left _ ps ?s0] =>
        destruct (IH s0 args) as [Hr [Hi [Hit' [Hk' Hn']]]];
          try reflexivity; try assumption
      end.
      { intros q Hq. apply Hs. now right. }
      { intros q Hq. simpl. apply unused_after_set.
        - intros Heq. apply Hnot. rewrite <- Heq. now apply in_map.
        - apply Hun. now right. }
      cbv zeta. simpl in Hr, Hi, Hit'. rewrite Hr, Hi, Hit', <- !app_assoc.
      simpl. auto.
Qed.

(** X1.  A call without keywords to a function with plain parameters of
    distinct names binds by position: the parameters take the arguments in
    order and the parameters beyond the arguments take their defaults.
    Every parameter beyond the arguments that has no default gets the
    too-few-arguments issues, an argument beyond the parameters gets the
    too-many-arguments issue, and there are no other issues. *)
Theorem positional_call_binds_in_order args :
  (forall p, In p params -> star_count p = 0) ->
  NoDup (map name params) ->
  unpacked = map (fun a => (None, a)) args ->
  get_executed_params parent type execution_context var_args
  = (positional_binding params args,
     flat_map (fun p => if needs_argument p then too_few_here else [])
              (skipn (len args) params)
     ++ too_many_for (map (fun a => (None, a)) (skipn (len params) args))).
Proof.
  intros Hs Hnd Hu.
  destruct (positional_fold params
              (initial_state execution_context var_args) args Hs Hnd)
    as [Hr [Hi [Hit [Hk Hn]]]]; try reflexivity.
  { exact Hu. }
  fold (bind_loop execution_context var_args) in Hr, Hi, Hit, Hk, Hn.
  unfold get_executed_params, consolidated_too_few, unexpected_keyword_issues,
    too_many_issues.
  rewrite Hr, Hi, Hit, Hk, Hn. simpl. reflexivity.
Qed.

(** X2.  A call without any argument binds every parameter of a parameter list
    with distinct names to what it gets by itself: an empty tuple for
    [*args], an empty dict for [**kwargs], the default, or
    [LazyUnknownContext]; each plain parameter without default gets the
    too-few-arguments issues, and there are no other issues.  These are
    the executed parameters of [create_default_params] when the
    default-param context is the parent context of the execution. *)
Theorem empty_call_binds_defaults :
  unpacked = [] ->
  NoDup (map name params) ->
  get_executed_params parent type execution_context var_args
  = (map (fun p => mkExecutedParam execution_context p (empty_binding p))
         params,
     flat_map (fun p => if needs_argument p then too_few_here else [])
              params) /\
  (get_default_param_context execution_context
   = parent_context execution_context ->
   fst (get_executed_params parent type execution_context var_args)
   = fst (create_default_params execution_context
                                (tree_node execution_context))).
Proof.
  intros Hu Hnd.
  destruct (exhausted_fold params
              (initial_state execution_context var_args) Hnd)
    as [Hr [Hi [Hit [Hk Hn]]]]; try reflexivity.
  { exact Hu. }
  fold (bind_loop execution_context var_args) in Hr, Hi, Hit, Hk, Hn.
  assert (Heq : get_executed_params parent type execution_context var_args
                = (map (fun p => mkExecutedParam execution_context p
                                                 (empty_binding p)) params,
                   flat_map (fun p => if needs_argument p then too_few_here
                                      else []) params)).
  { unfold get_executed_params, consolidated_too_few,
      unexpected_keyword_issues, too_many_issues.
    rewrite Hr, Hi, Hit, Hk, Hn. simpl. now rewrite app_nil_r. }
  split; [exact Heq|]. intros Hc. rewrite Heq. simpl.
  apply map_ext. intros p.
  unfold _create_default_param, empty_binding, default_or_unknown.
  rewrite Hc. now destruct (default p).
Qed.

(** X3.  A function without parameters consumes nothing: the result is empty,
    and the first argument of the call, be it positional or a keyword
    argument, is the one reported as too many; no keyword is ever reported
    as unexpected. *)
Theorem no_parameters_take_nothing :
  params = [] ->
  get_executed_params parent type execution_context var_args
  = ([], too_many_for unpacked).
Proof.
  intros Hp.
  unfold get_executed_params, bind_loop, consolidated_too_few,
    unexpected_keyword_issues, too_many_issues, too_many_for.
  rewrite Hp. reflexivity.
Qed.

(** *** The shape of the issues *)

Local Abbreviation issue_of_call :=
  (issue_of_call execution_context var_args).

Lemma too_few_issues_of_call : Forall issue_of_call too_few_here.
Proof.
  apply Forall_forall. intros i Hi. apply in_map_iff in Hi.
  destruct Hi as [node [<- Hin]]. split; [reflexivity|].
  right. left. simpl. auto.
Qed.

Lemma keyword_step_issues_of_call k a (s : state) :
  Forall issue_of_call (issues s) ->
  Forall issue_of_call (issues (kstep k a s)).
Proof.
  intros H. keyword_cases k s; try exact H.
  apply Forall_app. split; [exact H|].
  apply Forall_forall. intros i Hi. apply in_map_iff in Hi.
  destruct Hi as [node [<- Hin]]. split; [reflexivity|].
  left. simpl. split; [reflexivity|]. split; [exact Hin|]. now exists k.
Qed.

Lemma keyword_loop_issues_of_call it : forall s : state,
  Forall issue_of_call (issues s) ->
  Forall issue_of_call (issues (fst (drain it s))).
Proof.
  induction it as [|[[k|] a] it IH]; intros s H; simpl; auto.
  apply IH, keyword_step_issues_of_call, H.
Qed.

Lemma bind_param_issues_of_call (s : state) p :
  Forall issue_of_call (issues s) ->
  Forall issue_of_call (issues (step s p)).
Proof.
  intros H.
  pose proof (keyword_loop_issues_of_call (var_arg_iterator s) s H) as H1.
  destruct (drain (var_arg_iterator s) s) as [s1 argument] eqn:Hd.
  simpl in H1.
  destruct (dict_get (name p) (keys_used s1)) as [e|] eqn:Hg.
  - now rewrite (bind_param_bound _ _ Hd Hg).
  - rewrite (bind_param_unbound _ _ Hd Hg).
    destruct (bind_argument execution_context var_args p argument s1)
      as [[[result_arg it] nmk] iss] eqn:Hb.
    simpl. apply bind_argument_issues in Hb.
    destruct Hb as [->|[-> _]]; [exact H1|].
    apply Forall_app. split; [exact H1|apply too_few_issues_of_call].
Qed.

Lemma bind_loop_issues_of_call :
  Forall issue_of_call (issues (bind_loop execution_context var_args)).
Proof.
  unfold bind_loop.
  assert (H : Forall issue_of_call
                (issues (initial_state execution_context var_args)))
    by constructor.
  revert H. generalize (initial_state execution_context var_args).
  induction params as [|p ps IH]; intros s H; simpl; [exact H|].
  apply IH, bind_param_issues_of_call, H.
Qed.

Lemma Forall_flat_map_issues (A : Type) (P : Issue Node TreeContext -> Prop)
      (f : A -> list (Issue Node TreeContext)) (xs : list A) :
  (forall x, In x xs -> Forall P (f x)) -> Forall P (flat_map f xs).
Proof.
  intros H. induction xs as [|x xs IH]; simpl; [constructor|].
  apply Forall_app. split; [apply H; now left|].
  apply IH. intros y Hy. apply H. now right.
Qed.

Lemma issues_of_call_all :
  Forall issue_of_call
    (snd (get_executed_params parent type execution_context var_args)).
Proof.
  unfold get_executed_params. simpl.
  repeat (apply Forall_app; split).
  - apply bind_loop_issues_of_call.
  - unfold consolidated_too_few.
    destruct (keys_only (bind_loop execution_context var_args));
      [|constructor].
    apply Forall_flat_map_issues. intros k _.
    destruct (dict_get k pdict); [|constructor].
    match goal with |- context [if ?b then _ else _] => destruct b end;
      [apply too_few_issues_of_call|constructor].
  - unfold unexpected_keyword_issues. apply Forall_flat_map_issues.
    intros [key lazy_context] _.
    destruct lazy_context; simpl; constructor; [|constructor].
    split; [reflexivity|]. right. right. left. simpl.
    split; [reflexivity|]. now exists key.
  - unfold too_many_issues.
    destruct (var_arg_iterator (bind_loop execution_context var_args))
      as [|[first_key lazy_context] rest]; [constructor|].
    destruct calling_nodes as [|node nodes] eqn:Hc; [constructor|].
    destruct lazy_context; simpl; constructor; [|constructor].
    split; [reflexivity|]. right. right. right. simpl.
    split; [reflexivity|]. split; [rewrite Hc; discriminate|reflexivity].
Qed.

(** X8.  Every issue of a call is recorded for the default-param context of the
    function and is of one of four kinds.  The multiple-values and the
    too-few-arguments issues sit at calling nodes of the call; a
    too-many-arguments issue needs a calling node; and the too-few and
    too-many issues of a call all carry the same message, the one of
    [_error_argument_count] for the number of unpacked arguments. *)
Theorem issues_have_one_of_four_shapes :
  Forall issue_of_call
    (snd (get_executed_params parent type execution_context var_args)).
Proof.
  unfold get_executed_params. simpl.
  repeat (apply Forall_app; split).
  - apply bind_loop_issues_of_call.
  - unfold consolidated_too_few.
    destruct (keys_only (bind_loop execution_context var_args));
      [|constructor].
    apply Forall_flat_map_issues. intros k _.
    destruct (dict_get k pdict); [|constructor].
    match goal with |- context [if ?b then _ else _] => destruct b end;
      [apply too_few_issues_of_call|constructor].
  - unfold unexpected_keyword_issues. apply Forall_flat_map_issues.
    intros [key lazy_context] _.
    destruct lazy_context; simpl; constructor; [|constructor].
    split; [reflexivity|]. right. right. left. simpl.
    split; [reflexivity|]. now exists key.
  - unfold too_many_issues.
    destruct (var_arg_iterator (bind_loop execution_context var_args))
      as [|[first_key lazy_context] rest]; [constructor|].
    destruct calling_nodes as [|node nodes] eqn:Hc; [constructor|].
    destruct lazy_context; simpl; constructor; [|constructor].
    split; [reflexivity|]. right. right. right. simpl.
    split; [reflexivity|]. split; [rewrite Hc; discriminate|reflexivity].
Qed.


(** X9.  Without a calling node the only issues a call can get are the
    unexpected-keyword issues: these do not ask for a calling node. *)
Theorem without_calling_nodes_only_keyword_issues i :
  calling_nodes = [] ->
  In i (snd (get_executed_params parent type execution_context var_args)) ->
  error_name i = "type-error-keyword-argument".
Proof.
  intros Hc Hi.
  pose proof issues_of_call_all as H.
  rewrite Forall_forall in H. destruct (H i Hi) as [_ Hs].
  destruct Hs as [[_ [Hn _]]|[[_ [Hn _]]|[[He _]|[_ [Hn _]]]]].
  - rewrite Hc in Hn. destruct Hn.
  - rewrite Hc in Hn. destruct Hn.
  - exact He.
  - contradiction.
Qed.

(** *** The flags of the keyword loop *)

Local Abbreviation keyword_inv := (keyword_inv execution_context var_args).

Lemma keyword_loop_flags it : forall s : state,
  incl it unpacked ->
  (non_matching_keys s <> [] -> keys_only s = true) ->
  (had_multiple_value_error s = true -> keys_only s = true) ->
  (issues_named "type-error-multiple-values" (issues s) <> [] ->
   had_multiple_value_error s = true) ->
  (keys_only s = true -> exists k a, In (Some k, a) unpacked) ->
  let s1 := fst (drain it s) in
  (non_matching_keys s1 <> [] -> keys_only s1 = true) /\
  (had_multiple_value_error s1 = true -> keys_only s1 = true) /\
  (issues_named "type-error-multiple-values" (issues s1) <> [] ->
   had_multiple_value_error s1 = true) /\
  (keys_only s1 = true -> exists k a, In (Some k, a) unpacked).
Proof.
  induction it as [|[[k|] a] it IH]; intros s Hi H1 H2 H3 H4; simpl; auto.
  apply IH.
  - intros x Hx. apply Hi. now right.
  - keyword_cases k s; reflexivity.
  - keyword_cases k s; reflexivity.
  - keyword_cases k s; auto.
  - intros _. exists k, a. apply Hi. now left.
Qed.

Lemma bind_param_keyword_inv (s : state) p :
  keyword_inv s -> keyword_inv (step s p).
Proof.
  intros [Hi [H1 [H2 [H3 H4]]]]. split.
  { eapply incl_tran; [apply bind_param_iterator|exact Hi]. }
  pose proof (@keyword_loop_flags (var_arg_iterator s) s Hi H1 H2 H3 H4)
    as Hf.
  destruct (drain (var_arg_iterator s) s) as [s1 argument] eqn:Hd.
  simpl in Hf. destruct Hf as [F1 [F2 [F3 F4]]].
  destruct (dict_get (name p) (keys_used s1)) as [e|] eqn:Hg.
  - rewrite (bind_param_bound _ _ Hd Hg). simpl. auto.
  - rewrite (bind_param_unbound _ _ Hd Hg).
    destruct (bind_argument execution_context var_args p argument s1)
      as [[[result_arg it] nmk] iss] eqn:Hb.
    pose proof (bind_argument_non_matching _ _ _ Hb) as Hn.
    apply bind_argument_issues in Hb. simpl.
    split; [|split; [exact F2|split; [|exact F4]]].
    + destruct Hn as [->| ->]; [exact F1|congruence].
    + destruct Hb as [->|[-> _]]; [exact F3|].
      fold (issues_named "type-error-multiple-values"
              (issues s1 ++ too_few_here)).
      rewrite issues_named_app.
      rewrite (issues_named_other _ too_few_issues_only) by not_listed.
      now rewrite app_nil_r.
Qed.

Lemma bind_loop_keyword_inv :
  keyword_inv (bind_loop execution_context var_args).
Proof.
  unfold bind_loop.
  assert (H : keyword_inv (initial_state execution_context var_args)).
  { split; [apply incl_refl|]. simpl.
    split; [congruence|]. split; [discriminate|].
    split; [congruence|discriminate]. }
  revert H. generalize (initial_state execution_context var_args).
  induction params as [|p ps IH]; intros s H; simpl; [exact H|].
  apply IH, bind_param_keyword_inv, H.
Qed.

Lemma consolidated_too_few_suppressed (s : state) :
  dict_bool (non_matching_keys s) || had_multiple_value_error s = true ->
  consolidated_too_few execution_context var_args s = [].
Proof.
  intros H. unfold consolidated_too_few. destruct (keys_only s); [|reflexivity].
  induction (missing_keys execution_context s) as [|k ks IH]; simpl;
    [reflexivity|].
  rewrite IH, app_nil_r. destruct (dict_get k pdict); [|reflexivity].
  now rewrite H.
Qed.

Lemma loop_too_few_with_keywords :
  keys_only (bind_loop execution_context var_args) = true ->
  issues_named "type-error-too-few-arguments"
               (issues (bind_loop execution_context var_args)) = [].
Proof.
  intros Hk.
  destruct (@bind_loop_too_few params 0
              (initial_state execution_context var_args)) as [_ Hd].
  { split; [unfold count_error; simpl; lia|now left]. }
  fold (bind_loop execution_context var_args) in Hd.
  destruct Hd as [H0|[Hk' _]]; [|congruence].
  unfold count_error in H0. now apply length_zero_iff_nil.
Qed.

Lemma multiple_values_issues_named :
  issues_named "type-error-multiple-values"
    (snd (get_executed_params parent type execution_context var_args))
  = issues_named "type-error-multiple-values"
      (issues (bind_loop execution_context var_args)).
Proof.
  unfold get_executed_params. simpl. rewrite !issues_named_app.
  rewrite (issues_named_other _ (consolidated_too_few_only _)) by not_listed.
  rewrite (issues_named_other _ (unexpected_keyword_issues_only _))
    by not_listed.
  rewrite (issues_named_other _ (too_many_issues_only _)) by not_listed.
  now rewrite !app_nil_r.
Qed.

(** X10.  A call that gets an unexpected-keyword issue or a multiple-values
    issue gets no too-few-arguments issue: the missing arguments are only
    reported when there is no other issue about the keywords. *)
Theorem keyword_issues_suppress_too_few :
  let emitted :=
    snd (get_executed_params parent type execution_context var_args) in
  issues_named "type-error-keyword-argument" emitted <> [] \/
  issues_named "type-error-multiple-values" emitted <> [] ->
  issues_named "type-error-too-few-arguments" emitted = [].
Proof.
  intros emitted H. destruct bind_loop_keyword_inv as [_ [H1 [H2 [H3 _]]]].
  assert (Hs : dict_bool (non_matching_keys
                            (bind_loop execution_context var_args))
               || had_multiple_value_error
                    (bind_loop execution_context var_args) = true /\
               keys_only (bind_loop execution_context var_args) = true).
  { destruct H as [H|H].
    - unfold emitted in H. rewrite unexpected_keyword_issues_named in H.
      unfold unexpected_keyword_issues in H.
      destruct (non_matching_keys (bind_loop execution_context var_args))
        eqn:E; [now elim H|].
      split; [reflexivity|]. apply H1. discriminate.
    - unfold emitted in H. rewrite multiple_values_issues_named in H.
      rewrite (H3 H). split; [apply orb_true_r|auto]. }
  destruct Hs as [Hs Hk]. unfold emitted, get_executed_params. simpl.
  rewrite !issues_named_app, (loop_too_few_with_keywords Hk).
  rewrite (consolidated_too_few_suppressed _ Hs).
  rewrite (issues_named_other _ (unexpected_keyword_issues_only _))
    by not_listed.
  rewrite (issues_named_other _ (too_many_issues_only _)) by not_listed.
  reflexivity.
Qed.

(** X11.  A call in which no argument has a key only gets too-few-arguments and
    too-many-arguments issues. *)
Theorem positional_arguments_get_count_issues i :
  (forall k a, ~ In (Some k, a) unpacked) ->
  In i (snd (get_executed_params parent type execution_context var_args)) ->
  error_name i = "type-error-too-few-arguments" \/
  error_name i = "type-error-too-many-arguments".
Proof.
  intros Hno Hi.
  destruct bind_loop_keyword_inv as [_ [H1 [H2 [H3 H4]]]].
  assert (Hk : keys_only (bind_loop execution_context var_args) = false).
  { destruct (keys_only (bind_loop execution_context var_args));
      [|reflexivity].
    destruct (H4 eq_refl) as [k [a Hin]]. now elim (Hno k a). }
  pose proof issues_of_call_all as Hall. rewrite Forall_forall in Hall.
  destruct (Hall i Hi) as [_ [[He _]|[[He _]|[[He _]|[He _]]]]]; auto.
  - exfalso.
    assert (Hin : In i (issues_named "type-error-multiple-values"
                          (snd (get_executed_params parent type
                                  execution_context var_args)))).
    { apply filter_In. split; [exact Hi|]. now apply String.eqb_eq. }
    rewrite multiple_values_issues_named in Hin.
    destruct (issues_named "type-error-multiple-values"
                (issues (bind_loop execution_context var_args))) eqn:E;
      [contradiction|].
    assert (Hm : had_multiple_value_error
                   (bind_loop execution_context var_args) = true)
      by (apply H3; unfold issues_named in E; rewrite E; discriminate).
    rewrite (H2 Hm) in Hk. discriminate.
  - exfalso.
    assert (Hin : In i (issues_named "type-error-keyword-argument"
                          (snd (get_executed_params parent type
                                  execution_context var_args)))).
    { apply filter_In. split; [exact Hi|]. now apply String.eqb_eq. }
    rewrite unexpected_keyword_issues_named in Hin.
    unfold unexpected_keyword_issues in Hin.
    destruct (non_matching_keys (bind_loop execution_context var_args))
      eqn:E; [contradiction|].
    assert (Hk' : keys_only (bind_loop execution_context var_args) = true)
      by (apply H1; discriminate).
    rewrite Hk' in Hk. discriminate.
Qed.

(** *** What [**kwargs] and [*args] collect *)

Lemma fold_stream_ok ps : forall s : state,
  stream_ok s -> stream_ok (fold_left step ps s).
Proof.
  induction ps as [|p ps IH]; intros s H; simpl; [exact H|].
  apply IH, bind_param_stream_ok, H.
Qed.

Lemma state_drained_stream_ok ps1 : stream_ok (state_drained ps1).
Proof.
  assert (H : stream_ok (state_before ps1)).
  { apply fold_stream_ok. split; [apply incl_refl|intros ? ? []]. }
  destruct H as [Hi Hn]. split.
  - eapply incl_tran; [apply keyword_loop_iterator|exact Hi].
  - apply keyword_loop_stream_ok; assumption.
Qed.

(** X4.  When [**kwargs] is the last parameter (and neither a keyword argument
    nor an earlier parameter has its name), its dict holds unmatched
    keyword arguments of the call only, and the call gets no
    unexpected-keyword issue. *)
Theorem kwargs_last_collects_unmatched ps1 p :
  params = ps1 ++ [p] ->
  star_count p = 2 ->
  ~ In (name p) (map name ps1) ->
  (forall a, ~ In (Some (name p), a) unpacked) ->
  issues_named "type-error-keyword-argument"
    (snd (get_executed_params parent type execution_context var_args)) = [] /\
  exists dct,
    nth_error
      (fst (get_executed_params parent type execution_context var_args))
      (len ps1)
    = Some (mkExecutedParam execution_context p
              (LazyKnownContext
                 (FakeDict (evaluator execution_context) dct))) /\
    forall k lazy_context,
      In (k, lazy_context) dct ->
      In (Some k, lazy_context) unpacked /\ dict_get k pdict = None.
Proof.
  intros Hp Hstar Hnd Hno.
  pose proof (state_drained_unused _ _ Hnd Hno) as Hg.
  pose proof (bind_param_unbound _ p (drain_state_before ps1) Hg) as Hs.
  unfold bind_argument in Hs. rewrite Hstar in Hs. simpl in Hs.
  split.
  - rewrite unexpected_keyword_issues_named. unfold bind_loop.
    rewrite Hp, bind_loop_unfold. simpl. fold (state_before ps1).
    rewrite Hs. reflexivity.
  - exists (non_matching_keys (state_drained ps1)). split.
    + apply (bind_loop_nth _ _ _ _ Hp). fold (state_before ps1).
      rewrite Hs. simpl. now rewrite state_drained_result_params.
    + apply (state_drained_stream_ok ps1).
Qed.

Lemma star_args_loop_spec (it : PushBackIterator Node TreeContext Evaluator) :
  exists collected,
    it = collected ++ snd (star_args_loop it) /\
    fst (star_args_loop it) = map snd collected /\
    Forall (fun item : Argument Node TreeContext Evaluator =>
              key_bool (fst item) = false) collected /\
    match snd (star_args_loop it) with
    | [] => True
    | item :: _ => key_bool (fst item) = true
    end.
Proof.
  induction it as [|[key a] it IH]; simpl.
  - exists []. simpl. auto.
  - destruct (key_bool key) eqn:E; simpl.
    + exists []. simpl. auto.
    + destruct IH as [collected [H1 [H2 [H3 H4]]]].
      destruct (star_args_loop it) as [l r]. simpl in *.
      exists ((key, a) :: collected). simpl. rewrite <- H1, H2.
      repeat split; auto.
Qed.

(** X5.  A [*args] parameter that no keyword has bound takes the argument in
    hand and then the items of the iterator up to the first item with a
    non-empty key, in order and without a gap; the iterator is left at
    that item.  An item whose key is the empty string is taken like a
    positional one.  With no argument in hand the tuple is empty and the
    iterator has run out. *)
Theorem star_param_collects_run ps1 p ps2 :
  params = ps1 ++ p :: ps2 ->
  star_count p = 1 ->
  dict_get (name p) (keys_used (state_drained ps1)) = None ->
  match argument_in_hand ps1 with
  | Some a =>
      exists collected,
        var_arg_iterator (state_drained ps1)
        = collected ++ var_arg_iterator (step (state_before ps1) p) /\
        Forall (fun item : Argument Node TreeContext Evaluator =>
                  fst item = None \/ fst item = Some "") collected /\
        match var_arg_iterator (step (state_before ps1) p) with
        | [] => True
        | item :: _ => exists key, fst item = Some key /\ key <> ""
        end /\
        nth_error
          (fst (get_executed_params parent type execution_context var_args))
          (len ps1)
        = Some (mkExecutedParam execution_context p
                  (LazyKnownContext
                     (FakeSequence (evaluator execution_context) "tuple"
                                   (a :: map snd collected))))
  | None =>
      var_arg_iterator (step (state_before ps1) p) = [] /\
      nth_error
        (fst (get_executed_params parent type execution_context var_args))
        (len ps1)
      = Some (mkExecutedParam execution_context p
                (LazyKnownContext
                   (FakeSequence (evaluator execution_context) "tuple" [])))
  end.
Proof.
  intros Hp Hstar Hg.
  pose proof (bind_param_unbound _ p (drain_state_before ps1) Hg) as Hs.
  unfold bind_argument in Hs. rewrite Hstar in Hs. simpl in Hs.
  pose proof (keyword_loop_none (var_arg_iterator (state_before ps1))
                                (state_before ps1)) as Hnone.
  fold (argument_in_hand ps1) in Hnone. fold (state_drained ps1) in Hnone.
  destruct (argument_in_hand ps1) as [a|].
  - destruct (star_args_loop_spec (var_arg_iterator (state_drained ps1)))
      as [collected [H1 [H2 [H3 H4]]]].
    destruct (star_args_loop (var_arg_iterator (state_drained ps1)))
      as [l r]. simpl in H1, H2, H4.
    exists collected. rewrite Hs. simpl. split; [exact H1|].
    split; [|split].
    + eapply Forall_impl; [|exact H3]. intros [[key|] x]; simpl; auto.
      destruct (String.eqb key "") eqn:E; [|discriminate].
      apply String.eqb_eq in E. subst. auto.
    + destruct r as [|[[key|] x] r]; auto; simpl in H4; [|discriminate].
      exists key. split; [reflexivity|].
      intros ->. discriminate.
    + apply (bind_loop_nth _ _ _ _ Hp). fold (state_before ps1).
      rewrite Hs. simpl. now rewrite state_drained_result_params, H2.
  - rewrite Hs. simpl. split; [now apply Hnone|].
    apply (bind_loop_nth _ _ _ _ Hp). fold (state_before ps1).
    rewrite Hs. simpl. now rewrite state_drained_result_params.
Qed.

(** *** Keyword arguments that come first *)

Lemma dict_set_keys_grow (V : Type) k (v : V) (d : dict V) k0 :
  k0 = k \/ In k0 (dict_keys d) -> In k0 (dict_keys (dict_set k v d)).
Proof.
  induction d as [|[k' v'] d IH]; simpl.
  - intros [->|[]]. now left.
  - destruct (String.eqb k k') eqn:E; simpl.
    + apply String.eqb_eq in E. subst k'. intros [->|[->|H]]; auto.
    + intros [->|[->|H]]; auto.
Qed.

Lemma fold_param_dict_keys (ps : list (Param Node)) : forall d k,
  In k (dict_keys d) \/ In k (map name ps) ->
  In k (dict_keys
          (fold_left (fun d q => dict_set (name q) q d) ps d)).
Proof.
  induction ps as [|q ps IH]; intros d k; simpl.
  - intros [H|[]]. exact H.
  - intros [H|[H|H]]; apply IH; auto; left; apply dict_set_keys_grow; auto.
Qed.

(** With distinct names [param_dict] finds every parameter by its name. *)
Lemma param_dict_finds p :
  NoDup (map name params) -> In p params -> dict_get (name p) pdict = Some p.
Proof.
  intros Hnd Hin.
  destruct (dict_get (name p) pdict) as [q|] eqn:E.
  - destruct (param_dict_get _ E) as [Hq Hn]. f_equal.
    now apply map_name_injective with (ps := params).
  - apply dict_get_None in E. exfalso. apply E. unfold param_dict.
    apply fold_param_dict_keys. right. now apply in_map.
Qed.

Lemma keyword_step_still_none k key a (s : state) :
  key <> k -> dict_get k (keys_used s) = None ->
  dict_get k (keys_used (kstep key a s)) = None.
Proof.
  intros Hne H. apply dict_get_None. apply dict_get_None in H.
  now apply keyword_step_unused.
Qed.

Lemma keyword_loop_first_keyword k a p named : forall (s : state) rest,
  Forall (fun item : Argument Node TreeContext Evaluator =>
            fst item <> None) named ->
  (forall a', ~ In (Some k, a') named) ->
  dict_get k pdict = Some p ->
  dict_get k (keys_used s) = None ->
  dict_get k (keys_used (fst (drain (named ++ (Some k, a) :: rest) s)))
  = Some (mkExecutedParam execution_context p a).
Proof.
  induction named as [|[[key|] a0] named IH]; intros s rest Hall Hno Hp Hg; simpl.
  - apply keyword_loop_keeps. unfold keyword_step. rewrite Hp.
    unfold dict_mem. rewrite Hg. simpl. apply dict_get_set_same.
  - inversion Hall; subst. apply IH; auto.
    + intros a' Hin. apply (Hno a'). now right.
    + apply keyword_step_still_none; [|exact Hg].
      intros ->. apply (Hno a0). now left.
  - inversion Hall as [|? ? Hx]; subst. now elim Hx.
Qed.

(** X7.  A keyword argument that only has keyword arguments of other names
    before it in the stream binds the parameter of its name, whatever
    follows it: with distinct parameter names the executed parameter at
    the place of that parameter carries the value of this keyword
    argument. *)
Theorem leading_keyword_binds_its_parameter ps1 p ps2 named a rest :
  params = ps1 ++ p :: ps2 ->
  NoDup (map name params) ->
  unpacked = named ++ (Some (name p), a) :: rest ->
  Forall (fun item : Argument Node TreeContext Evaluator =>
            fst item <> None) named ->
  (forall a', ~ In (Some (name p), a') named) ->
  nth_error
    (fst (get_executed_params parent type execution_context var_args))
    (len ps1)
  = Some (mkExecutedParam execution_context p a).
Proof.
  intros Hp Hnd Hu Hall Hno.
  assert (Hin : In p params).
  { rewrite Hp. apply in_or_app. right. now left. }
  pose proof (param_dict_finds p Hnd Hin) as Hpd.
  assert (Hfirst :
            dict_get (name p)
              (keys_used
                 (fst (drain unpacked
                         (initial_state execution_context var_args))))
            = Some (mkExecutedParam execution_context p a)).
  { rewrite Hu. now apply keyword_loop_first_keyword. }
  assert (Hg : dict_get (name p) (keys_used (state_drained ps1))
               = Some (mkExecutedParam execution_context p a)).
  { destruct ps1 as [|q ps1]; [exact Hfirst|].
    unfold state_drained, state_before.
    apply keyword_loop_keeps. simpl.
    apply keys_used_entry_kept_fold.
    now apply bind_param_keeps_drained. }
  pose proof (bind_param_bound _ p (drain_state_before ps1) Hg) as Hs.
  apply (bind_loop_nth _ _ _ _ Hp). fold (state_before ps1). rewrite Hs.
  simpl. now rewrite state_drained_result_params.
Qed.

(** *** The message about the number of arguments *)

(** X12.  The message of [_error_argument_count] names the range of arguments
    the function takes: the upper end is the number of parameters, the
    lower end the number of parameters with neither default nor stars, and
    it says [exactly] when the two are the same. *)
Theorem error_argument_count_range (funcdef : Funcdef Node) actual_count :
  let n := len (get_params funcdef) in
  let r := required_count funcdef in
  r <= n /\
  _error_argument_count funcdef actual_count
  = String.concat ""
      ["TypeError: "; funcdef_name funcdef; "() takes ";
       if Nat.eqb r n then "exactly "
       else String.concat "" ["from "; str_of_nat r; " to "];
       str_of_nat n; " arguments ("; str_of_nat actual_count; " given)."].
Proof.
  intros n r. unfold _error_argument_count, r, required_count, n.
  pose proof (filter_length (@has_default_or_star Node) (get_params funcdef))
    as Hlen.
  set (d := len (filter (@has_default_or_star Node) (get_params funcdef)))
    in *.
  set (q := len (filter (fun p => negb (has_default_or_star p))
                        (get_params funcdef))) in *.
  split; [lia|].
  replace (len (get_params funcdef) - d) with q by lia.
  destruct (Nat.eqb d 0) eqn:E1;
    destruct (Nat.eqb q (len (get_params funcdef))) eqn:E2;
    try reflexivity.
  - apply Nat.eqb_eq in E1. apply Nat.eqb_neq in E2. lia.
  - apply Nat.eqb_neq in E1. apply Nat.eqb_eq in E2. lia.
Qed.

(** *** Where the bound values come from *)

Local Abbreviation from_call := (from_call execution_context var_args).
Local Abbreviation bound_value_ok :=
  (bound_value_ok execution_context var_args).

Local Abbreviation keys_bound_ok :=
  (keys_bound_ok execution_context var_args).

Lemma keyword_loop_bound_ok it : forall s : state,
  incl it unpacked -> keys_bound_ok s -> keys_bound_ok (fst (drain it s)).
Proof.
  induction it as [|[[key|] a] it IH]; intros s Hi H; simpl; auto.
  apply IH; [intros x Hx; apply Hi; now right|].
  keyword_cases key s; try exact H.
  intros k e Hin. apply dict_set_In in Hin.
  destruct Hin as [Hin|[-> ->]]; [now apply (H k)|].
  split; [reflexivity|]. simpl. split.
  - match goal with E : dict_get _ _ = Some _ |- _ =>
      apply param_dict_get in E; tauto end.
  - left. exists (Some key). apply Hi. now left.
Qed.

Lemma keyword_loop_in_hand it : forall (s : state) a,
  incl it unpacked -> snd (drain it s) = Some a -> from_call a.
Proof.
  induction it as [|[[key|] a0] it IH]; intros s a Hi; simpl.
  - discriminate.
  - apply IH. intros x Hx. apply Hi. now right.
  - intros [= ->]. exists None. apply Hi. now left.
Qed.

Lemma star_args_loop_from (it : PushBackIterator Node TreeContext Evaluator) x :
  In x (fst (star_args_loop it)) -> exists key, In (key, x) it.
Proof.
  destruct (star_args_loop_spec it) as [collected [H1 [H2 _]]].
  rewrite H2. intros Hin. apply in_map_iff in Hin.
  destruct Hin as [[key y] [<- Hin]]. exists key. rewrite H1.
  apply in_or_app. now left.
Qed.

Lemma bind_argument_bound_ok p argument (s : state) result_arg it nmk iss :
  stream_ok s ->
  (forall a, argument = Some a -> from_call a) ->
  In p params ->
  bind_argument execution_context var_args p argument s
  = (result_arg, it, nmk, iss) ->
  bound_value_ok (mkExecutedParam execution_context p result_arg).
Proof.
  intros [Hi Hn] Ha Hp. unfold bind_argument.
  destruct (Nat.eqb (star_count p) 1).
  - destruct argument as [a|].
    + pose proof (star_args_loop_from (var_arg_iterator s)) as Hfrom.
      destruct (star_args_loop (var_arg_iterator s)) as [l r].
      intros [= <- _ _ _]. split; [reflexivity|]. split; [exact Hp|].
      right. right. right. left. eexists. split; [reflexivity|].
      intros x [<-|Hx]; [now apply Ha|].
      destruct (Hfrom x Hx) as [key Hk]. exists key. now apply Hi.
    + intros [= <- _ _ _]. split; [reflexivity|]. split; [exact Hp|].
      right. right. right. left. exists []. split; [reflexivity|].
      intros x [].
  - destruct (Nat.eqb (star_count p) 2).
    + intros [= <- _ _ _]. split; [reflexivity|]. split; [exact Hp|].
      right. right. right. right. eexists. split; [reflexivity|].
      intros k x Hx. now apply Hn.
    + destruct argument as [a|].
      * intros [= <- _ _ _]. split; [reflexivity|]. split; [exact Hp|].
        left. now apply Ha.
      * destruct (default p) as [d|] eqn:Hd.
        -- intros [= <- _ _ _]. split; [reflexivity|]. split; [exact Hp|].
           right. left. exists d. auto.
        -- destruct (keys_only s); intros [= <- _ _ _];
             (split; [reflexivity|]; split; [exact Hp|]; auto).
Qed.

Lemma bind_param_bound_ok (s : state) p :
  In p params -> stream_ok s -> keys_bound_ok s ->
  Forall bound_value_ok (result_params s) ->
  keys_bound_ok (step s p) /\
  Forall bound_value_ok (result_params (step s p)).
Proof.
  intros Hp Hs Hk Hr. destruct Hs as [Hi Hn].
  pose proof (@keyword_loop_bound_ok (var_arg_iterator s) s Hi Hk) as Hk1.
  pose proof (keyword_loop_stream_ok _ Hi Hn) as Hn1.
  pose proof (keyword_loop_iterator (var_arg_iterator s) s) as Hi1.
  pose proof (keyword_loop_result_params (var_arg_iterator s) s) as Hr1.
  pose proof (fun a => @keyword_loop_in_hand (var_arg_iterator s) s a Hi)
    as Ha.
  destruct (drain (var_arg_iterator s) s) as [s1 argument] eqn:Hd.
  simpl in Hk1, Hn1, Hi1, Hr1, Ha.
  destruct (dict_get (name p) (keys_used s1)) as [e|] eqn:Hg.
  - rewrite (bind_param_bound _ _ Hd Hg). simpl. split; [exact Hk1|].
    rewrite Hr1. apply Forall_app. split; [exact Hr|].
    constructor; [|constructor]. apply dict_get_In in Hg.
    now apply (Hk1 _ _ Hg).
  - rewrite (bind_param_unbound _ _ Hd Hg).
    destruct (bind_argument execution_context var_args p argument s1)
      as [[[result_arg it] nmk] iss] eqn:Hb.
    assert (Hok : bound_value_ok
                    (mkExecutedParam execution_context p result_arg)).
    { eapply bind_argument_bound_ok; [|exact Ha|exact Hp|exact Hb].
      split; [eapply incl_tran; eassumption|exact Hn1]. }
    simpl. split.
    + destruct (is_unknown result_arg); [exact Hk1|].
      intros k e Hin. apply dict_set_In in Hin.
      destruct Hin as [Hin|[-> ->]]; [now apply (Hk1 k)|exact Hok].
    + rewrite Hr1. apply Forall_app. split; [exact Hr|].
      constructor; [exact Hok|constructor].
Qed.

Lemma bind_fold_bound_ok ps : forall s : state,
  incl ps params -> stream_ok s -> keys_bound_ok s ->
  Forall bound_value_ok (result_params s) ->
  Forall bound_value_ok (result_params (fold_left step ps s)).
Proof.
  induction ps as [|p ps IH]; intros s Hin Hs Hk Hr; simpl; [exact Hr|].
  destruct (@bind_param_bound_ok s p) as [Hk' Hr']; auto.
  { apply Hin. now left. }
  apply IH; auto.
  - intros q Hq. apply Hin. now right.
  - now apply bind_param_stream_ok.
Qed.

(** X14.  The binder makes up no values.  Every executed parameter of the result
    belongs to the execution at hand and to a parameter of the function,
    and what it binds is an argument of the call, the default of its own
    parameter in the default-param context, [LazyUnknownContext], a tuple
    of arguments of the call, or a dict of keyword arguments of the call
    under their keys. *)
Theorem bound_values_come_from_the_call :
  Forall bound_value_ok
    (fst (get_executed_params parent type execution_context var_args)).
Proof.
  unfold get_executed_params, bind_loop. simpl.
  apply bind_fold_bound_ok.
  - apply incl_refl.
  - split; [apply incl_refl|intros ? ? []].
  - intros ? ? [].
  - constructor.
Qed.

(** *** Too few and too many *)

Local Abbreviation covered := (@covered Node TreeContext Evaluator).

Lemma bind_argument_unknown p argument (s : state) result_arg it nmk iss :
  bind_argument execution_context var_args p argument s
  = (result_arg, it, nmk, iss) ->
  is_unknown result_arg = true ->
  argument = Some result_arg \/
  (argument = None /\ it = var_arg_iterator s).
Proof.
  unfold bind_argument.
  destruct (Nat.eqb (star_count p) 1).
  - destruct argument as [a|];
      [destruct (star_args_loop (var_arg_iterator s))|];
      intros [= <- _ _ _]; discriminate.
  - destruct (Nat.eqb (star_count p) 2); [intros [= <- _ _ _]; discriminate|].
    destruct argument as [a|]; [intros [= <- _ _ _]; auto|].
    destruct (default p); [intros [= <- _ _ _]; discriminate|].
    destruct (keys_only s); intros [= _ <- _ _]; auto.
Qed.

Lemma bind_param_covered done (s : state) p :
  (forall key, ~ In (key, LazyUnknownContext) unpacked) ->
  incl (var_arg_iterator s) unpacked ->
  covered done s -> covered (p :: done) (step s p).
Proof.
  intros Hno Hi [Hnil|Hall].
  { left. pose proof (bind_param_iterator s p) as H. rewrite Hnil in H.
    destruct (var_arg_iterator (step s p)) as [|x it]; [reflexivity|].
    exfalso. apply (H x). now left. }
  assert (Hold : forall q, In q done ->
                           exists e, dict_get (name q) (keys_used (step s p))
                                     = Some e).
  { intros q Hq. destruct (Hall q Hq) as [e He]. exists e.
    now apply bind_param_keeps_drained, keyword_loop_keeps. }
  pose proof (keyword_loop_none (var_arg_iterator s) s) as Hnone.
  pose proof (fun a => @keyword_loop_in_hand (var_arg_iterator s) s a Hi)
    as Hhand.
  destruct (drain (var_arg_iterator s) s) as [s1 argument] eqn:Hd.
  simpl in Hnone, Hhand.
  destruct (dict_get (name p) (keys_used s1)) as [e|] eqn:Hg.
  - right. intros q [<-|Hq]; [|now apply Hold].
    exists e. now rewrite (bind_param_bound _ _ Hd Hg).
  - pose proof (bind_param_unbound _ _ Hd Hg) as Hs.
    destruct (bind_argument execution_context var_args p argument s1)
      as [[[result_arg it] nmk] iss] eqn:Hb.
    simpl in Hs. destruct (is_unknown result_arg) eqn:Hu.
    + left. destruct (bind_argument_unknown _ _ _ Hb Hu) as [Ha|[Ha Hit]].
      * exfalso. destruct (Hhand _ Ha) as [key Hk].
        destruct result_arg; try discriminate. now apply (Hno key).
      * rewrite Hs. simpl. rewrite Hit. now apply Hnone.
    + right. intros q [<-|Hq]; [|now apply Hold].
      rewrite Hs. simpl. eexists. apply dict_get_set_same.
Qed.

Lemma bind_fold_covered ps : forall done (s : state),
  (forall key, ~ In (key, LazyUnknownContext) unpacked) ->
  incl (var_arg_iterator s) unpacked ->
  covered done s -> covered (rev ps ++ done) (fold_left step ps s).
Proof.
  induction ps as [|p ps IH]; intros done s Hno Hi Hc; simpl; [exact Hc|].
  rewrite <- app_assoc. simpl. apply IH; auto.
  - eapply incl_tran; [apply bind_param_iterator|exact Hi].
  - now apply bind_param_covered.
Qed.

Lemma param_dict_keys_are_names k :
  In k (dict_keys pdict) -> exists p, In p params /\ name p = k.
Proof.
  unfold dict_keys. rewrite in_map_iff. intros [[k' p] [<- Hin]].
  unfold param_dict in Hin. apply fold_param_dict_In in Hin.
  destruct Hin as [[]|[Hp Hn]]. now exists p.
Qed.

(** X15.  A call whose arguments are not [LazyUnknownContext] never gets both
    kinds of count issues: when it gets a too-many-arguments issue, it
    gets no too-few-arguments issue. *)
Theorem too_many_excludes_too_few :
  let emitted :=
    snd (get_executed_params parent type execution_context var_args) in
  (forall key, ~ In (key, LazyUnknownContext) unpacked) ->
  issues_named "type-error-too-many-arguments" emitted <> [] ->
  issues_named "type-error-too-few-arguments" emitted = [].
Proof.
  intros emitted Hno Hmany.
  set (s := bind_loop execution_context var_args).
  assert (Hleft : var_arg_iterator s <> []).
  { intros Hnil. apply Hmany. unfold emitted.
    rewrite too_many_issues_named. unfold too_many_issues. fold s.
    now rewrite Hnil. }
  assert (Hcov : covered (rev params ++ []) s).
  { apply bind_fold_covered; [exact Hno|apply incl_refl|].
    right. intros q []. }
  destruct Hcov as [Hnil|Hcov]; [contradiction|].
  assert (Hmiss : missing_keys execution_context s = []).
  { unfold missing_keys.
    assert (Hle : forall ks : list string,
               (forall k, In k ks -> dict_mem k (keys_used s) = true) ->
               filter (fun k => negb (dict_mem k (keys_used s))) ks = []).
    { intros ks. induction ks as [|x ks IHks]; intros Hks; [reflexivity|].
      simpl. rewrite (Hks x (or_introl eq_refl)). simpl.
      apply IHks. intros y Hy. apply Hks. now right. }
    apply Hle. intros k0 Hk0.
    destruct (param_dict_keys_are_names _ Hk0) as [p [Hp <-]].
    destruct (Hcov p) as [e He].
    { apply in_or_app. left. now apply -> in_rev. }
    unfold dict_mem. now rewrite He. }
  unfold emitted, get_executed_params. simpl. fold s.
  rewrite !issues_named_app.
  rewrite (issues_named_other _ (unexpected_keyword_issues_only _))
    by not_listed.
  rewrite (issues_named_other _ (too_many_issues_only _)) by not_listed.
  assert (Hcons : consolidated_too_few execution_context var_args s = []).
  { unfold consolidated_too_few. rewrite Hmiss.
    now destruct (keys_only s). }
  rewrite Hcons.
  destruct (@bind_loop_too_few params 0
              (initial_state execution_context var_args)) as [_ Hd].
  { split; [unfold count_error; simpl; lia|now left]. }
  fold (bind_loop execution_context var_args) in Hd. fold s in Hd.
  destruct Hd as [H0|[_ Hnil]]; [|contradiction].
  unfold count_error in H0. apply length_zero_iff_nil in H0.
  now rewrite H0.
Qed.
End BinderFacts.

(** ** Facts about [matches_signature] *)

Section InferFacts.
Variables Node TreeContext Evaluator ContextObject : Type.
Variable lazy_infer :
  LazyContext Node TreeContext Evaluator -> list ContextObject.
Variable py__class__ : ContextObject -> ContextObject.
Variable pep0484_infer_param :
  ExecutionContext Node TreeContext Evaluator -> Param Node ->
  list ContextObject.
Variable docstrings_infer_param :
  ExecutionContext Node TreeContext Evaluator -> Param Node ->
  list ContextObject.
Variable execute_annotation : list ContextObject -> list ContextObject.
Variable is_sub_class_of : ContextObject -> ContextObject -> bool.

Lemma infer_without_hints (self : ExecutedParam Node TreeContext Evaluator) :
  infer lazy_infer pep0484_infer_param docstrings_infer_param
        execute_annotation self false
  = lazy_infer (_lazy_context self).
Proof. reflexivity. Qed.

(** C8.  [matches_signature] is true for a parameter with stars, true
    when the annotations are empty, and otherwise true exactly when some
    class of the contexts inferred without hints is a subclass of some
    annotation. *)
Theorem matches_signature_spec
        (self : ExecutedParam Node TreeContext Evaluator) :
  let matches :=
    matches_signature lazy_infer py__class__ pep0484_infer_param
                      docstrings_infer_param execute_annotation
                      is_sub_class_of self in
  let annotations := infer_annotations pep0484_infer_param self in
  let argument_contexts :=
    map py__class__
        (infer lazy_infer pep0484_infer_param docstrings_infer_param
               execute_annotation self false) in
  (star_count (_param_node self) <> 0 -> matches = true) /\
  (annotations = [] -> matches = true) /\
  (star_count (_param_node self) = 0 -> annotations <> [] ->
   (matches = true <->
    exists c1 c2,
      In c1 argument_contexts /\ In c2 annotations /\
      is_sub_class_of c1 c2 = true)).
Proof.
  intros matches annotations argument_contexts.
  unfold matches, matches_signature. fold annotations argument_contexts.
  split; [|split].
  - intros Hs. apply Nat.eqb_neq in Hs. now rewrite Hs.
  - intros Ha. rewrite Ha. simpl.
    now destruct (negb (Nat.eqb (star_count (_param_node self)) 0)).
  - intros Hs Ha. rewrite Hs. simpl.
    destruct annotations as [|c annotations'] eqn:E; [contradiction|].
    simpl negb. cbv iota. rewrite existsb_exists. split.
    + intros [c1 [H1 H2]]. apply existsb_exists in H2.
      destruct H2 as [c2 [H2 H3]]. now exists c1, c2.
    + intros [c1 [c2 [H1 [H2 H3]]]]. exists c1. split; [exact H1|].
      apply existsb_exists. now exists c2.
Qed.

(** X13.  With a hint at hand, be it an annotation or a docstring type, [infer]
    returns the hints and does not look at the argument: any other lazy
    context gives the same result.  Without any hint, [infer] with hints
    is [infer] without hints, the inference of the lazy context. *)
Theorem infer_prefers_hints
        (self : ExecutedParam Node TreeContext Evaluator) :
  let ann :=
    execute_annotation (infer_annotations pep0484_infer_param self) in
  let doc_params :=
    docstrings_infer_param (_execution_context self) (_param_node self) in
  let infer_self :=
    infer lazy_infer pep0484_infer_param docstrings_infer_param
          execute_annotation in
  (ann <> [] \/ doc_params <> [] ->
   infer_self self true = ann ++ doc_params /\
   forall lazy_context,
     infer_self (mkExecutedParam (_execution_context self)
                                 (_param_node self) lazy_context) true
     = infer_self self true) /\
  (ann = [] -> doc_params = [] ->
   infer_self self true = lazy_infer (_lazy_context self)).
Proof.
  intros ann doc_params infer_self. unfold infer_self, infer.
  fold ann doc_params. split.
  - intros H.
    assert (Hb : list_bool ann || list_bool doc_params = true).
    { destruct H as [H|H].
      - destruct ann; [now elim H|reflexivity].
      - destruct doc_params; [now elim H|]. apply orb_true_r. }
    rewrite Hb. split; [reflexivity|]. intros lazy_context. simpl.
    unfold infer_annotations. simpl.
    fold (infer_annotations pep0484_infer_param self).
    fold ann doc_params. now rewrite Hb.
  - intros -> ->. reflexivity.
Qed.
End InferFacts.

(** ** The facts at concrete calls *)

Section Checks.
Import Examples.

Local Abbreviation ec := execution.
Local Abbreviation va := call_arguments.
Local Abbreviation too_few := "type-error-too-few-arguments".
Local Abbreviation too_many := "type-error-too-many-arguments".

Ltac distinct_names :=
  repeat constructor; simpl; intuition discriminate.


(** Parameters are told apart by their names: for the parameter list
    [x, x=1], which Python does not accept, and [f(x=5)] both places of
    the result hold the executed parameter made for the last [x]. *)
Remark repeated_name_shares_executed_param :
  map _param_node (fst (run x_twice call_x5 [arglist "x=5"]))
  = [with_default "x" "1"; with_default "x" "1"].
Proof. reflexivity. Qed.

(** [def f(x, y)] with the stream [x=1, 2], at the turn of [x]. *)
Lemma bound_by_keyword_drops_item_in_hand_witness :
  get_params (tree_node (ec xy)) = [] ++ plain "x" :: [plain "y"] /\
  dict_get (name (plain "x"))
           (keys_used (state_drained (ec xy)
                         (va call_x1_2 [arglist "x=1, 2"]) []))
  = Some (mkExecutedParam (ec xy) (plain "x")
            (keyword_value "x" "1" "x=1, 2")) /\
  var_arg_iterator
    (bind_param (ec xy) (va call_x1_2 [arglist "x=1, 2"])
       (state_before (ec xy) (va call_x1_2 [arglist "x=1, 2"]) [])
       (plain "x"))
  = var_arg_iterator
      (state_drained (ec xy) (va call_x1_2 [arglist "x=1, 2"]) []).
Proof.
  split; [reflexivity|]. split; [reflexivity|].
  exact (proj1 (proj2 (@bound_by_keyword_drops_item_in_hand
                         node string unit node_parent node_type (ec xy)
                         (va call_x1_2 [arglist "x=1, 2"])
                         [] (plain "x") [plain "y"] _ eq_refl eq_refl))).
Defined.

(** C2 as stated fails for [def f(x, y)] with the stream [x=1, 2]: the
    keyword loop of the turn of [x] ends with the positional [2] in hand,
    [x] is bound by its keyword, and [2] is not pushed back: the iterator
    is empty afterwards and [y] is left without an argument. *)
Lemma item_in_hand_is_not_pushed_back :
  let args := va call_x1_2 [arglist "x=1, 2"] in
  argument_in_hand (ec xy) args [] = Some (positional "2" "x=1, 2") /\
  var_arg_iterator
    (bind_param (ec xy) args (state_before (ec xy) args []) (plain "x"))
  = [] /\
  var_arg_iterator
    (bind_param (ec xy) args (state_before (ec xy) args []) (plain "x"))
  <> push_back (None, positional "2" "x=1, 2")
               (var_arg_iterator (state_drained (ec xy) args [])) /\
  map _lazy_context (fst (get_executed_params node_parent node_type
                                              (ec xy) args))
  = [keyword_value "x" "1" "x=1, 2"; LazyUnknownContext].
Proof.
  simpl. split; [reflexivity|]. split; [reflexivity|].
  split; [vm_compute; discriminate|reflexivity].
Qed.

(** C3 as stated fails for [def f(x, y, z)] with [f(z=1)] and one calling
    node: the consolidated pass emits two too-few-arguments issues. *)
Lemma two_too_few_arguments_issues :
  count_error too_few (snd (run xyz call_z1 [arglist "z=1"])) = 2 /\
  ~ count_error too_few (snd (run xyz call_z1 [arglist "z=1"])) <= 1.
Proof. split; [reflexivity|]. vm_compute. lia. Qed.



(** [def f(x, y)] with [f(1, y=2, x=3)] and the argument list as the
    calling node. *)
Lemma duplicate_keyword_keeps_first_witness :
  get_params (tree_node (ec xy)) = [mkParam "x" 0 None; mkParam "y" 0 None] /\
  unpacked_va (ec xy) (va call_1_y2_x3 [arglist "1, y=2, x=3"])
  = [(None, positional "1" "1, y=2, x=3");
     (Some "y", keyword_value "y" "2" "1, y=2, x=3");
     (Some "x", keyword_value "x" "3" "1, y=2, x=3")] /\
  is_unknown (positional "1" "1, y=2, x=3") = false /\
  run xy call_1_y2_x3 [arglist "1, y=2, x=3"]
  = ([mkExecutedParam (ec xy) (plain "x") (positional "1" "1, y=2, x=3");
      mkExecutedParam (ec xy) (plain "y")
                      (keyword_value "y" "2" "1, y=2, x=3")],
     [mkIssue "C" "type-error-multiple-values" (arglist "1, y=2, x=3")
        "TypeError: f() got multiple values for keyword argument 'x'."]).
Proof.
  split; [reflexivity|]. split; [reflexivity|]. split; [reflexivity|].
  exact (proj1 (@duplicate_keyword_keeps_first
                  node string unit node_parent node_type (ec xy)
                  (va call_1_y2_x3 [arglist "1, y=2, x=3"])
                  _ _ _ eq_refl eq_refl eq_refl)).
Defined.

(** [def f(x)] with [f(1, 2, 3)]: the issue is reported at [2]. *)
Lemma too_many_arguments_at_first_leftover_witness :
  var_arg_iterator
    (bind_loop (ec [plain "x"]) (va call_1_2_3 [arglist "1, 2, 3"]))
  = [(None, positional "2" "1, 2, 3"); (None, positional "3" "1, 2, 3")] /\
  issues_named too_many
    (snd (run [plain "x"] call_1_2_3 [arglist "1, 2, 3"]))
  = [mkIssue "C" too_many (("number", "2") :: arglist "1, 2, 3")
       "TypeError: f() takes exactly 1 arguments (3 given)."].
Proof.
  split; [reflexivity|].
  exact (@too_many_arguments_at_first_leftover
           node string unit node_parent node_type (ec [plain "x"])
           (va call_1_2_3 [arglist "1, 2, 3"]) _ _ _ eq_refl).
Defined.

(** C6 as stated fails for [def f(x)] with [f(1, *v)]: the leftover item
    is a known value, and the call gets no too-many-arguments issue
    although it has a calling node. *)
Lemma known_leftover_gets_no_issue :
  let args := va call_1_star_v [arglist "1, *v"] in
  var_arg_iterator (bind_loop (ec [plain "x"]) args)
  = [(None, known "v[0]")] /\
  get_calling_nodes args <> [] /\
  count_error too_many
    (snd (get_executed_params node_parent node_type (ec [plain "x"]) args))
  = 0 /\
  count_error too_many
    (snd (get_executed_params node_parent node_type (ec [plain "x"]) args))
  <> 1.
Proof.
  simpl. split; [reflexivity|]. split; [discriminate|].
  split; [reflexivity|]. vm_compute. discriminate.
Qed.

(** [def f(x, y=1)] with [f()], at the turn of [x] and at the turn of [y]. *)
Lemma plain_param_without_argument_witness :
  let args := va [] [arglist ""] in
  (get_params (tree_node (ec x_y1)) = [] ++ plain "x" :: [with_default "y" "1"] /\
   star_count (plain "x" : Param node) = 0 /\
   dict_get (name (plain "x" : Param node))
            (keys_used (state_drained (ec x_y1) args [])) = None /\
   argument_in_hand (ec x_y1) args [] = None) /\
  nth_error (fst (get_executed_params node_parent node_type (ec x_y1) args)) 0
  = Some (mkExecutedParam (ec x_y1) (plain "x") LazyUnknownContext) /\
  issues (bind_param (ec x_y1) args (state_before (ec x_y1) args [])
                     (plain "x"))
  = [mkIssue "C" too_few (arglist "")
       "TypeError: f() takes from 1 to 2 arguments (0 given)."].
Proof.
  intros args. split; [repeat split|].
  exact (@plain_param_without_argument
           node string unit node_parent node_type (ec x_y1) args
           [] (plain "x") [with_default "y" "1"]
           eq_refl eq_refl eq_refl eq_refl).
Defined.

(** The parameter [x] annotated with [object], an argument that infers to
    an [int] instance. *)
Lemma matches_signature_spec_witness :
  let self := mkExecutedParam (ec xy) (plain "x") (positional "1" "1") in
  star_count (_param_node self) = 0 /\
  infer_annotations example_annotation self <> [] /\
  (matches_signature example_lazy_infer example_class example_annotation
                     example_docstring example_execute example_subclass self
   = true <->
   exists c1 c2,
     In c1 (map example_class
                (infer example_lazy_infer example_annotation
                       example_docstring example_execute self false)) /\
     In c2 (infer_annotations example_annotation self) /\
     example_subclass c1 c2 = true).
Proof.
  intros self.
  assert (Ha : infer_annotations example_annotation self <> [])
    by (vm_compute; discriminate).
  split; [reflexivity|]. split; [exact Ha|].
  exact (proj2 (proj2 (@matches_signature_spec
                         node string unit string example_lazy_infer
                         example_class example_annotation example_docstring
                         example_execute example_subclass self))
               eq_refl Ha).
Defined.

(** The default parameters of [def f(x, y=1)]: [y] gets its default. *)
Lemma create_default_params_spec_witness :
  let e := mkExecutedParam (ec x_y1) (with_default "y" "1")
             (LazyTreeContext "f-parent"
                [("number", "1"); ("param", "y"); ("parameters", "")]) in
  In e (fst (create_default_params (ec x_y1) (tree_node (ec x_y1)))) /\
  star_count (_param_node e) <> 1 /\ star_count (_param_node e) <> 2 /\
  default (_param_node e)
  = Some [("number", "1"); ("param", "y"); ("parameters", "")] /\
  _lazy_context e
  = LazyTreeContext (parent_context (ec x_y1))
      [("number", "1"); ("param", "y"); ("parameters", "")].
Proof.
  intros e.
  assert (Hin : In e (fst (create_default_params (ec x_y1)
                             (tree_node (ec x_y1)))))
    by (right; left; reflexivity).
  assert (H1 : star_count (_param_node e) <> 1) by discriminate.
  assert (H2 : star_count (_param_node e) <> 2) by discriminate.
  split; [exact Hin|]. split; [exact H1|]. split; [exact H2|].
  split; [reflexivity|].
  exact (proj1 (proj2 (proj2 (proj2 (proj2 (@create_default_params_spec
           node string unit (ec x_y1) (tree_node (ec x_y1)))) e Hin)))
           H1 H2 _ eq_refl).
Defined.

(** [def f(x)] with [f(1, *v)]: the first leftover item is a known value
    and gets no issue, with a calling node at hand. *)
Lemma argument_issues_need_tree_context_witness :
  let args := va call_1_star_v [arglist "1, *v"] in
  var_arg_iterator (bind_loop (ec [plain "x"]) args)
  = [(None, known "v[0]")] /\
  is_tree (known "v[0]") = false /\
  get_calling_nodes args = [arglist "1, *v"] /\
  issues_named too_many
    (snd (get_executed_params node_parent node_type (ec [plain "x"]) args))
  = [].
Proof.
  intros args.
  split; [reflexivity|]. split; [reflexivity|]. split; [reflexivity|].
  exact (proj2 (proj2 (proj2 (@argument_issues_need_tree_context
           node string unit node_parent node_type (ec [plain "x"]) args)))
           _ _ _ eq_refl eq_refl).
Defined.

(** *** Further facts at concrete calls *)

Local Abbreviation gep := (get_executed_params node_parent node_type).

Ltac no_such_item :=
  let H := fresh in
  intros; intros H; simpl in H;
  repeat (destruct H as [H|H]; [discriminate H|]); exact H.

(** [def f(x)] with [f(1, 2, 3)]. *)
Lemma positional_call_binds_in_order_witness :
  (forall p, In p (get_params (tree_node (ec [plain "x"]))) ->
             star_count p = 0) /\
  NoDup (map name (get_params (tree_node (ec [plain "x"])))) /\
  unpacked_va (ec [plain "x"]) (va call_1_2_3 [arglist "1, 2, 3"])
  = map (fun a => (None, a))
        [positional "1" "1, 2, 3"; positional "2" "1, 2, 3";
         positional "3" "1, 2, 3"] /\
  run [plain "x"] call_1_2_3 [arglist "1, 2, 3"]
  = ([mkExecutedParam (ec [plain "x"]) (plain "x")
                      (positional "1" "1, 2, 3")],
     [mkIssue "C" too_many (("number", "2") :: arglist "1, 2, 3")
        "TypeError: f() takes exactly 1 arguments (3 given)."]).
Proof.
  assert (Hs : forall p, In p (get_params (tree_node (ec [plain "x"]))) ->
                         star_count p = 0).
  { intros p [<-|[]]. reflexivity. }
  assert (Hn : NoDup (map name (get_params (tree_node (ec [plain "x"])))))
    by distinct_names.
  split; [exact Hs|]. split; [exact Hn|]. split; [reflexivity|].
  exact (@positional_call_binds_in_order
           node string unit node_parent node_type (ec [plain "x"])
           (va call_1_2_3 [arglist "1, 2, 3"])
           [positional "1" "1, 2, 3"; positional "2" "1, 2, 3";
            positional "3" "1, 2, 3"] Hs Hn eq_refl).
Defined.

(** [def f(x, y=1)] with [f()]. *)
Lemma empty_call_binds_defaults_witness :
  unpacked_va (ec x_y1) (va [] [arglist ""]) = [] /\
  NoDup (map name (get_params (tree_node (ec x_y1)))) /\
  run x_y1 [] [arglist ""]
  = ([mkExecutedParam (ec x_y1) (plain "x") LazyUnknownContext;
      mkExecutedParam (ec x_y1) (with_default "y" "1")
        (LazyTreeContext "C"
           [("number", "1"); ("param", "y"); ("parameters", "")])],
     [mkIssue "C" too_few (arglist "")
        "TypeError: f() takes from 1 to 2 arguments (0 given)."]).
Proof.
  assert (Hn : NoDup (map name (get_params (tree_node (ec x_y1)))))
    by distinct_names.
  split; [reflexivity|]. split; [exact Hn|].
  exact (proj1 (@empty_call_binds_defaults
                  node string unit node_parent node_type (ec x_y1)
                  (va [] [arglist ""]) eq_refl Hn)).
Defined.

(** A function without parameters called as [f(z=1)]: the keyword
    argument is reported as too many. *)
Lemma no_parameters_take_nothing_witness :
  get_params (tree_node (ec [])) = [] /\
  run [] call_z1 [arglist "z=1"]
  = ([], [mkIssue "C" too_many (("argument", "z=1") :: arglist "z=1")
            "TypeError: f() takes exactly 0 arguments (1 given)."]).
Proof.
  split; [reflexivity|].
  exact (@no_parameters_take_nothing
           node string unit node_parent node_type (ec [])
           (va call_z1 [arglist "z=1"]) eq_refl).
Defined.

(** [*args] and [**kwargs] with [f(1, 2, a=3)], at [**kwargs]. *)
Lemma kwargs_last_collects_unmatched_witness :
  get_params (tree_node (ec args_kwargs))
  = [star "args"] ++ [star_star "kwargs"] /\
  star_count (star_star "kwargs" : Param node) = 2 /\
  ~ In (name (star_star "kwargs" : Param node))
       (map name [star "args" : Param node]) /\
  (forall a, ~ In (Some (name (star_star "kwargs" : Param node)), a)
                  (unpacked_va (ec args_kwargs)
                     (va call_1_2_a3 [arglist "1, 2, a=3"]))) /\
  issues_named "type-error-keyword-argument"
    (snd (run args_kwargs call_1_2_a3 [arglist "1, 2, a=3"])) = [].
Proof.
  assert (H1 : ~ In (name (star_star "kwargs" : Param node))
                    (map name [star "args" : Param node]))
    by no_such_item.
  assert (H2 : forall a,
             ~ In (Some (name (star_star "kwargs" : Param node)), a)
                  (unpacked_va (ec args_kwargs)
                     (va call_1_2_a3 [arglist "1, 2, a=3"])))
    by no_such_item.
  split; [reflexivity|]. split; [reflexivity|]. split; [exact H1|].
  split; [exact H2|].
  exact (proj1 (@kwargs_last_collects_unmatched
                  node string unit node_parent node_type (ec args_kwargs)
                  (va call_1_2_a3 [arglist "1, 2, a=3"])
                  [star "args"] (star_star "kwargs") eq_refl eq_refl H1 H2)).
Defined.

(** [*args] and [**kwargs] with [f(1, 2, a=3)], at [*args]: the tuple
    takes [1] and [2], the iterator is left at [a=3]. *)
Lemma star_param_collects_run_witness :
  let args := va call_1_2_a3 [arglist "1, 2, a=3"] in
  get_params (tree_node (ec args_kwargs))
  = [] ++ star "args" :: [star_star "kwargs"] /\
  star_count (star "args" : Param node) = 1 /\
  dict_get (name (star "args" : Param node))
           (keys_used (state_drained (ec args_kwargs) args [])) = None /\
  argument_in_hand (ec args_kwargs) args []
  = Some (positional "1" "1, 2, a=3") /\
  exists collected,
    [(None, positional "2" "1, 2, a=3");
     (Some "a", keyword_value "a" "3" "1, 2, a=3")]
    = collected ++ [(Some "a", keyword_value "a" "3" "1, 2, a=3")] /\
    nth_error (fst (gep (ec args_kwargs) args)) 0
    = Some (mkExecutedParam (ec args_kwargs) (star "args")
              (LazyKnownContext
                 (FakeSequence tt "tuple"
                    (positional "1" "1, 2, a=3" :: map snd collected)))).
Proof.
  intros args.
  split; [reflexivity|]. split; [reflexivity|]. split; [reflexivity|].
  split; [reflexivity|].
  destruct (@star_param_collects_run
              node string unit node_parent node_type (ec args_kwargs) args
              [] (star "args") [star_star "kwargs"]
              eq_refl eq_refl eq_refl)
    as [collected [H1 [H2 [H3 H4]]]].
  exists collected. split; [exact H1|exact H4].
Defined.

(** [def f(x, y)] with [f(1, y=2, x=3)]: after the turn of [x] its entry
    stays through the turn of [y], where [x=3] is seen. *)
Lemma keys_used_entry_is_kept_witness :
  let args := va call_1_y2_x3 [arglist "1, y=2, x=3"] in
  let e := mkExecutedParam (ec xy) (plain "x")
             (positional "1" "1, y=2, x=3") in
  dict_get "x" (keys_used (state_before (ec xy) args [plain "x"])) = Some e /\
  dict_get "x"
    (keys_used (fold_left (bind_param (ec xy) args) [plain "y"]
                          (state_before (ec xy) args [plain "x"])))
  = Some e.
Proof.
  intros args e. split; [reflexivity|].
  exact (@keys_used_entry_is_kept
           node string unit (ec xy) args "x" e [plain "y"]
           (state_before (ec xy) args [plain "x"]) eq_refl).
Defined.

(** [def f(x, y)] with [f(y=2, x=1)], for the parameter [x]. *)
Lemma leading_keyword_binds_its_parameter_witness :
  let args := va call_y2_x1 [arglist "y=2, x=1"] in
  get_params (tree_node (ec xy)) = [] ++ plain "x" :: [plain "y"] /\
  NoDup (map name (get_params (tree_node (ec xy)))) /\
  unpacked_va (ec xy) args
  = [(Some "y", keyword_value "y" "2" "y=2, x=1")]
    ++ (Some (name (plain "x" : Param node)),
        keyword_value "x" "1" "y=2, x=1") :: [] /\
  Forall (fun item : argument => fst item <> None)
         [(Some "y", keyword_value "y" "2" "y=2, x=1")] /\
  (forall a', ~ In (Some (name (plain "x" : Param node)), a')
                   [(Some "y", keyword_value "y" "2" "y=2, x=1")]) /\
  nth_error (fst (gep (ec xy) args)) 0
  = Some (mkExecutedParam (ec xy) (plain "x")
            (keyword_value "x" "1" "y=2, x=1")).
Proof.
  intros args.
  assert (Hn : NoDup (map name (get_params (tree_node (ec xy)))))
    by distinct_names.
  assert (Hf : Forall (fun item : argument => fst item <> None)
                      [(Some "y", keyword_value "y" "2" "y=2, x=1")])
    by (repeat constructor; discriminate).
  assert (Hno : forall a',
             ~ In (Some (name (plain "x" : Param node)), a')
                  [(Some "y", keyword_value "y" "2" "y=2, x=1")])
    by no_such_item.
  split; [reflexivity|]. split; [exact Hn|]. split; [reflexivity|].
  split; [exact Hf|]. split; [exact Hno|].
  exact (@leading_keyword_binds_its_parameter
           node string unit node_parent node_type (ec xy) args
           [] (plain "x") [plain "y"]
           [(Some "y", keyword_value "y" "2" "y=2, x=1")]
           (keyword_value "x" "1" "y=2, x=1") []
           eq_refl Hn eq_refl Hf Hno).
Defined.

(** [def f(x)] with [f(x=1, q=2)] and no calling node: the unexpected
    keyword is reported all the same. *)
Lemma without_calling_nodes_only_keyword_issues_witness :
  let args := va call_x1_q2 [] in
  let i := mkIssue "C" "type-error-keyword-argument"
             (("argument", "q=2") :: arglist "x=1, q=2")
             "TypeError: f() got an unexpected keyword argument 'q'." in
  get_calling_nodes args = [] /\
  In i (snd (gep (ec [plain "x"]) args)) /\
  error_name i = "type-error-keyword-argument".
Proof.
  intros args i.
  assert (Hin : In i (snd (gep (ec [plain "x"]) args)))
    by (left; reflexivity).
  split; [reflexivity|]. split; [exact Hin|].
  exact (@without_calling_nodes_only_keyword_issues
           node string unit node_parent node_type (ec [plain "x"]) args i
           eq_refl Hin).
Defined.

(** [def f(x, y)] with [f(x=1, q=2)]: [y] is left without argument, but
    the unexpected keyword [q] is the only thing reported. *)
Lemma keyword_issues_suppress_too_few_witness :
  let emitted := snd (run xy call_x1_q2 [arglist "x=1, q=2"]) in
  issues_named "type-error-keyword-argument" emitted <> [] /\
  issues_named too_few emitted = [].
Proof.
  intros emitted.
  assert (H : issues_named "type-error-keyword-argument" emitted <> [])
    by (vm_compute; discriminate).
  split; [exact H|].
  exact (@keyword_issues_suppress_too_few
           node string unit node_parent node_type (ec xy)
           (va call_x1_q2 [arglist "x=1, q=2"]) (or_introl H)).
Defined.

(** [def f(x)] with [f(1, 2, 3)]: the one issue is about the count. *)
Lemma positional_arguments_get_count_issues_witness :
  let args := va call_1_2_3 [arglist "1, 2, 3"] in
  let i := mkIssue "C" too_many (("number", "2") :: arglist "1, 2, 3")
             "TypeError: f() takes exactly 1 arguments (3 given)." in
  (forall k a, ~ In (Some k, a) (unpacked_va (ec [plain "x"]) args)) /\
  In i (snd (gep (ec [plain "x"]) args)) /\
  (error_name i = too_few \/ error_name i = too_many).
Proof.
  intros args i.
  assert (Hno : forall k a,
             ~ In (Some k, a) (unpacked_va (ec [plain "x"]) args))
    by no_such_item.
  assert (Hin : In i (snd (gep (ec [plain "x"]) args)))
    by (left; reflexivity).
  split; [exact Hno|]. split; [exact Hin|].
  exact (@positional_arguments_get_count_issues
           node string unit node_parent node_type (ec [plain "x"]) args i
           Hno Hin).
Defined.

(** [def f(x)] with [f(1, 2, 3)]: too many, hence not too few. *)
Lemma too_many_excludes_too_few_witness :
  let args := va call_1_2_3 [arglist "1, 2, 3"] in
  let emitted := snd (gep (ec [plain "x"]) args) in
  (forall key, ~ In (key, LazyUnknownContext)
                    (unpacked_va (ec [plain "x"]) args)) /\
  issues_named too_many emitted <> [] /\
  issues_named too_few emitted = [].
Proof.
  intros args emitted.
  assert (Hno : forall key, ~ In (key, LazyUnknownContext)
                                 (unpacked_va (ec [plain "x"]) args))
    by no_such_item.
  assert (H : issues_named too_many emitted <> [])
    by (vm_compute; discriminate).
  split; [exact Hno|]. split; [exact H|].
  exact (@too_many_excludes_too_few
           node string unit node_parent node_type (ec [plain "x"]) args
           Hno H).
Defined.

(** The parameter [x] annotated with [object]: the hint is the result,
    whatever the argument is. *)
Lemma infer_prefers_hints_witness :
  let self := mkExecutedParam (ec xy) (plain "x") (positional "1" "1") in
  (example_execute (infer_annotations example_annotation self) <> [] \/
   example_docstring (_execution_context self) (_param_node self) <> []) /\
  infer example_lazy_infer example_annotation example_docstring
        example_execute self true
  = ["object"].
Proof.
  intros self.
  assert (H : example_execute (infer_annotations example_annotation self)
              <> [] \/
              example_docstring (_execution_context self) (_param_node self)
              <> [])
    by (left; vm_compute; discriminate).
  split; [exact H|].
  exact (proj1 (proj1 (@infer_prefers_hints
                         node string unit string example_lazy_infer
                         example_annotation example_docstring
                         example_execute self) H)).
Defined.
End Checks.
